(** * NyayaMitra: background job handlers

    A shallow embedding of the job handlers of [src/jobs] (case sync, SOS
    dispatch, notification rendering, report triage, health check) and of
    the one service method they call, [CaseService.syncCaseFromExternalAPI].

    The handlers are [async] scripts over a database (Prisma), a Redis
    backed queue (BullMQ), the clock and [Math.random].  They are embedded
    in a state-and-exception monad over a [World] that holds the tables,
    the queues, the clock, the stream of random draws and a fault oracle
    that decides which database or queue call rejects.  Every call that
    leaves the process is appended to [trace].  Pure logging
    ([logger], [jobLogger]) is left out. *)

From Stdlib Require Import List String Ascii ZArith QArith Qround Bool Lia Lqa.
From Stdlib Require Import Qabs Qpower.
From Stdlib Require Import Permutation.
From Stdlib Require Import DecimalString.
Import ListNotations.

Close Scope Q_scope.
Local Open Scope string_scope.
Local Open Scope Z_scope.

Set Implicit Arguments.

(* ================================================================== *)
(** ** Enumerations of the database schema *)

Module CaseStatus.
Inductive t := PENDING | ONGOING | ADJOURNED | DISPOSED | DISMISSED.
Definition eqb (a b : t) : bool :=
  match a, b with
  | PENDING, PENDING | ONGOING, ONGOING | ADJOURNED, ADJOURNED
  | DISPOSED, DISPOSED | DISMISSED, DISMISSED => true
  | _, _ => false
  end.
End CaseStatus.

Module SosStatus.
Inductive t := PENDING | ACKNOWLEDGED | IN_PROGRESS | RESOLVED | DISMISSED.
End SosStatus.

Module SosPriority.
Inductive t := LOW | MEDIUM | HIGH | CRITICAL.
End SosPriority.

Module ReportStatus.
Inductive t :=
  SUBMITTED | UNDER_REVIEW | INVESTIGATING | ACTION_TAKEN | CLOSED | DISMISSED.
Definition eqb (a b : t) : bool :=
  match a, b with
  | SUBMITTED, SUBMITTED | UNDER_REVIEW, UNDER_REVIEW
  | INVESTIGATING, INVESTIGATING | ACTION_TAKEN, ACTION_TAKEN
  | CLOSED, CLOSED | DISMISSED, DISMISSED => true
  | _, _ => false
  end.
End ReportStatus.

Module UploadStatus.
Inductive t := PENDING | COMPLETED | FAILED.
Definition eqb (a b : t) : bool :=
  match a, b with
  | PENDING, PENDING | COMPLETED, COMPLETED | FAILED, FAILED => true
  | _, _ => false
  end.
End UploadStatus.

Module UserRole.
Inductive t := CITIZEN | ADVOCATE | ADMIN | MODERATOR.
Definition eqb (a b : t) : bool :=
  match a, b with
  | CITIZEN, CITIZEN | ADVOCATE, ADVOCATE | ADMIN, ADMIN
  | MODERATOR, MODERATOR => true
  | _, _ => false
  end.
End UserRole.

(** The priority computed by the triage job: ['LOW' | 'MEDIUM' | 'HIGH']. *)
Module Priority.
Inductive t := LOW | MEDIUM | HIGH.
Definition rank (p : t) : nat :=
  match p with LOW => 0%nat | MEDIUM => 1%nat | HIGH => 2%nat end.
Definition le (p q : t) : Prop := (rank p <= rank q)%nat.
Definition eqb (p q : t) : bool := Nat.eqb (rank p) (rank q).
Definition toString (p : t) : string :=
  match p with LOW => "LOW" | MEDIUM => "MEDIUM" | HIGH => "HIGH" end.
End Priority.

(* ================================================================== *)
(** ** Rows *)

Module Case.
Record t := {
  id : string;
  caseNumber : string;
  title : string;
  court : string;
  judge : option string;
  status : CaseStatus.t;
  filingDate : Z;
  nextHearing : option Z;   (* [Date | null], as milliseconds *)
  updatedAt : Z
}.
End Case.

Module User.
Record t := {
  id : string;
  role : UserRole.t;
  isActive : bool;
  firstName : string;
  lastName : string
}.
End User.

(** A [caseFollow] row as [findMany] returns it with [include: { user: true }]. *)
Module CaseFollow.
Record t := {
  userId : string;
  caseId : string;
  user : User.t
}.
End CaseFollow.

Module Report.
Record t := {
  id : string;
  title : string;
  description : string;
  department : string;
  status : ReportStatus.t;
  assignedTo : option string;
  createdAt : Z;
  updatedAt : Z
}.
End Report.

Module MediaAsset.
Record t := {
  id : string;
  corruptionReportId : option string;
  uploadStatus : UploadStatus.t
}.
End MediaAsset.

Module SosIncident.
Record t := {
  id : string;
  userId : string;
  status : SosStatus.t;
  updatedAt : Z
}.
End SosIncident.

(* ================================================================== *)
(** ** Job payloads ([src/types]) and queues *)

Module NotificationJobData.
Record t := {
  userId : string;
  type : string;                    (* 'email' | 'sms' *)
  template : string;
  data : list (string * string)     (* Record<string, any> *)
}.
End NotificationJobData.

Module Location.
Record t := { lat : Q; lng : Q; address : string }.
End Location.

Module Contact.
Record t := { phone : option string; email : string }.
End Contact.

Module SosDispatchJobData.
Record t := {
  incidentId : string;
  location : Location.t;
  description : string;
  priority : SosPriority.t;
  userContact : Contact.t
}.
End SosDispatchJobData.

Module CaseSyncJobData.
Record t := { caseId : string; lastSyncAt : option Z }.
End CaseSyncJobData.

Module BatchCaseSyncJobData.
Record t := { caseIds : list string }.
End BatchCaseSyncJobData.

Module ReportTriageJobData.
Record t := { reportId : string; department : string }.
End ReportTriageJobData.

(** A BullMQ job as a handler receives it: [attemptsMade] counts the
    attempts that failed before this one, [attempts] is [opts.attempts]. *)
Module Job.
Record t (D : Type) := {
  id : string;
  name : string;
  data : D;
  attemptsMade : nat;
  attempts : nat
}.
End Job.

(** A job as [Queue.add name data] stores it. *)
Module QJob.
Record t := { name : string; data : NotificationJobData.t }.
End QJob.

Module Queue.
Record t := {
  name : string;
  waiting : list QJob.t;
  active : list QJob.t;
  completed : list QJob.t;
  failed : list QJob.t;
  delayed : list QJob.t
}.
Definition add (q : t) (j : QJob.t) : t :=
  {| name := name q; waiting := waiting q ++ [j]; active := active q;
     completed := completed q; failed := failed q; delayed := delayed q |}.
End Queue.

Module Worker.
Record t := { name : string; isRunning : bool }.
End Worker.

Inductive QueueName := QSosDispatch | QNotifications | QCaseSync | QReportTriage.
Inductive JobState := Waiting | Active | Completed | Failed | Delayed.

(** Email and SMS as the notification job hands them to the provider. *)
Module Email.
Record t := { subject : string; html : string; text : string }.
End Email.

(* ================================================================== *)
(** ** The world *)

(** A call that leaves the process. *)
Inductive Call :=
| CaseFindUnique (id : string)
| CaseUpsert (caseNumber : string)
| CaseFollowFindMany (caseId : string)
| CaseFollowCount (caseId : string)
| ReportFindUnique (id : string)
| ReportUpdate (id : string) (st : ReportStatus.t) (assignee : option string)
| ReportCount (moderatorId : string)
| MediaAssetCount (reportId : string)
| UserFindMany (roles : list UserRole.t)
| SosIncidentUpdate (id : string) (st : SosStatus.t)
| QueueAdd (q : QueueName) (j : QJob.t)
| QueueGet (q : QueueName) (state : JobState)
| EmergencyService (service : string)
| EmailSend (e : Email.t)
| SmsSend (message : string).

Record World := {
  cases : list Case.t;
  caseFollows : list CaseFollow.t;
  users : list User.t;
  corruptionReports : list Report.t;
  mediaAssets : list MediaAsset.t;
  sosIncidents : list SosIncident.t;
  sosDispatchQueue : Queue.t;
  notificationQueue : Queue.t;
  caseSyncQueue : Queue.t;
  reportTriageQueue : Queue.t;
  workers : list Worker.t;
  now : Z;                                   (* Date.now() *)
  random : list Q;                           (* upcoming Math.random() draws *)
  nextId : nat;                              (* ids of created rows *)
  fails : list Call -> Call -> option string;
             (* [fails trace c = Some msg]: call [c] rejects with Error(msg) *)
  trace : list Call
}.

Definition set_cases (w : World) (v : list Case.t) : World :=
  {| cases := v; caseFollows := caseFollows w; users := users w;
     corruptionReports := corruptionReports w; mediaAssets := mediaAssets w;
     sosIncidents := sosIncidents w; sosDispatchQueue := sosDispatchQueue w;
     notificationQueue := notificationQueue w; caseSyncQueue := caseSyncQueue w;
     reportTriageQueue := reportTriageQueue w; workers := workers w;
     now := now w; random := random w; nextId := nextId w;
     fails := fails w; trace := trace w |}.

Definition set_corruptionReports (w : World) (v : list Report.t) : World :=
  {| cases := cases w; caseFollows := caseFollows w; users := users w;
     corruptionReports := v; mediaAssets := mediaAssets w;
     sosIncidents := sosIncidents w; sosDispatchQueue := sosDispatchQueue w;
     notificationQueue := notificationQueue w; caseSyncQueue := caseSyncQueue w;
     reportTriageQueue := reportTriageQueue w; workers := workers w;
     now := now w; random := random w; nextId := nextId w;
     fails := fails w; trace := trace w |}.

Definition set_sosIncidents (w : World) (v : list SosIncident.t) : World :=
  {| cases := cases w; caseFollows := caseFollows w; users := users w;
     corruptionReports := corruptionReports w; mediaAssets := mediaAssets w;
     sosIncidents := v; sosDispatchQueue := sosDispatchQueue w;
     notificationQueue := notificationQueue w; caseSyncQueue := caseSyncQueue w;
     reportTriageQueue := reportTriageQueue w; workers := workers w;
     now := now w; random := random w; nextId := nextId w;
     fails := fails w; trace := trace w |}.

Definition set_notificationQueue (w : World) (v : Queue.t) : World :=
  {| cases := cases w; caseFollows := caseFollows w; users := users w;
     corruptionReports := corruptionReports w; mediaAssets := mediaAssets w;
     sosIncidents := sosIncidents w; sosDispatchQueue := sosDispatchQueue w;
     notificationQueue := v; caseSyncQueue := caseSyncQueue w;
     reportTriageQueue := reportTriageQueue w; workers := workers w;
     now := now w; random := random w; nextId := nextId w;
     fails := fails w; trace := trace w |}.

Definition set_random (w : World) (v : list Q) : World :=
  {| cases := cases w; caseFollows := caseFollows w; users := users w;
     corruptionReports := corruptionReports w; mediaAssets := mediaAssets w;
     sosIncidents := sosIncidents w; sosDispatchQueue := sosDispatchQueue w;
     notificationQueue := notificationQueue w; caseSyncQueue := caseSyncQueue w;
     reportTriageQueue := reportTriageQueue w; workers := workers w;
     now := now w; random := v; nextId := nextId w;
     fails := fails w; trace := trace w |}.

Definition set_nextId (w : World) (v : nat) : World :=
  {| cases := cases w; caseFollows := caseFollows w; users := users w;
     corruptionReports := corruptionReports w; mediaAssets := mediaAssets w;
     sosIncidents := sosIncidents w; sosDispatchQueue := sosDispatchQueue w;
     notificationQueue := notificationQueue w; caseSyncQueue := caseSyncQueue w;
     reportTriageQueue := reportTriageQueue w; workers := workers w;
     now := now w; random := random w; nextId := v;
     fails := fails w; trace := trace w |}.

Definition set_trace (w : World) (v : list Call) : World :=
  {| cases := cases w; caseFollows := caseFollows w; users := users w;
     corruptionReports := corruptionReports w; mediaAssets := mediaAssets w;
     sosIncidents := sosIncidents w; sosDispatchQueue := sosDispatchQueue w;
     notificationQueue := notificationQueue w; caseSyncQueue := caseSyncQueue w;
     reportTriageQueue := reportTriageQueue w; workers := workers w;
     now := now w; random := random w; nextId := nextId w;
     fails := fails w; trace := v |}.

(* ================================================================== *)
(** ** The monad of handlers: state plus exceptions *)

Inductive Result (A : Type) :=
| Ok (a : A)
| Throw (message : string).   (* a rejected promise: Error(message) *)

Arguments Ok {A} a.
Arguments Throw {A} message.

Definition M (A : Type) : Type := World -> Result A * World.

Definition ret {A} (a : A) : M A := fun w => (Ok a, w).

Definition bind {A B} (m : M A) (k : A -> M B) : M B :=
  fun w => match m w with
           | (Ok a, w') => k a w'
           | (Throw e, w') => (Throw e, w')
           end.

Definition throw {A} (message : string) : M A := fun w => (Throw message, w).

(** [try { body } catch (error) { handler }] *)
Definition tryCatch {A} (body : M A) (handler : string -> M A) : M A :=
  fun w => match body w with
           | (Ok a, w') => (Ok a, w')
           | (Throw e, w') => handler e w'
           end.

Definition gets {A} (f : World -> A) : M A := fun w => (Ok (f w), w).
Definition modify (f : World -> World) : M unit := fun w => (Ok tt, f w).

Notation "x <- m ;; k" := (bind m (fun x => k))
  (at level 61, m at next level, right associativity).
Notation "m ;;; k" := (bind m (fun _ => k))
  (at level 61, right associativity).

(** [for (const x of xs) { await f(x) }] *)
Fixpoint forEach {A} (xs : list A) (f : A -> M unit) : M unit :=
  match xs with
  | [] => ret tt
  | x :: rest => f x ;;; forEach rest f
  end.

(** An outgoing call: logged, and rejected when the oracle says so. *)
Definition call (c : Call) : M unit :=
  fun w =>
    let w' := set_trace w (trace w ++ [c]) in
    match fails w (trace w) c with
    | Some message => (Throw message, w')
    | None => (Ok tt, w')
    end.

(** [Math.random()]: the next draw of the stream ([0] once it has run out). *)
Definition Math_random : M Q :=
  fun w => (Ok (hd 0%Q (random w)), set_random w (tl (random w))).

Definition Date_now : M Z := gets now.

(** No call ever rejects in [w]. *)
Definition reliable (w : World) : Prop := forall h c, fails w h c = None.

(* ================================================================== *)
(** ** JavaScript helpers *)

(** Rendering of dates depends on the locale of the host; the handlers are
    stated over any rendering. *)
Class JsDate := {
  toISOString : Z -> string;                  (* new Date(ms).toISOString() *)
  toLocaleString : Z -> string;               (* new Date(ms).toLocaleString() *)
  toLocaleDateString : option string -> string
                                (* new Date(value).toLocaleDateString() *)
}.

Definition string_of_Z (z : Z) : string := NilZero.string_of_int (Z.to_int z).
Definition string_of_nat (n : nat) : string := NilZero.string_of_uint (Nat.to_uint n).

(** [a !== b] on values that are a string or [null]. *)
Definition option_eqb {A} (eqb : A -> A -> bool) (a b : option A) : bool :=
  match a, b with
  | Some x, Some y => eqb x y
  | None, None => true
  | _, _ => false
  end.

(** [xs.push(x)] *)
Definition push (xs : list string) (x : string) : list string := (xs ++ [x])%list.

(** [xs.join(sep)] *)
Fixpoint join (sep : string) (xs : list string) : string :=
  match xs with
  | [] => ""
  | [x] => x
  | x :: rest => x ++ sep ++ join sep rest
  end.

(** [s.includes(k)] *)
Fixpoint includes (s k : string) : bool :=
  if String.prefix k s then true
  else match s with
       | EmptyString => false
       | String _ rest => includes rest k
       end.

(** [s.toLowerCase()].  A string is the UTF-8 bytes of the text.  The
    letters of ASCII are lowered.  Outside ASCII two characters have a lower
    case that holds a letter of ASCII, and they are lowered too: the Kelvin
    sign U+212A (bytes 226 132 170) gives [k], and U+0130 (bytes 196 176)
    gives [i] followed by U+0307 (bytes 204 135).  Every other character
    outside ASCII lowers to characters outside ASCII and is left as it is:
    the handlers only search the lowered text for words of ASCII, and such a
    search cannot tell. *)
Definition lower_ascii (c : ascii) : ascii :=
  let n := nat_of_ascii c in
  if (andb (65 <=? n) (n <=? 90))%nat then ascii_of_nat (n + 32) else c.

Definition is_byte (c : ascii) (n : nat) : bool := (nat_of_ascii c =? n)%nat.

Fixpoint toLowerCase (s : string) : string :=
  match s with
  | EmptyString => EmptyString
  | String c rest =>
      let plain := String (lower_ascii c) (toLowerCase rest) in
      match rest with
      | EmptyString => plain
      | String c1 rest1 =>
          if andb (is_byte c 196) (is_byte c1 176)
          then String "i" (String (ascii_of_nat 204) (String (ascii_of_nat 135)
                 (toLowerCase rest1)))
          else match rest1 with
               | EmptyString => plain
               | String c2 rest2 =>
                   if andb (is_byte c 226) (andb (is_byte c1 132) (is_byte c2 170))
                   then String "k" (toLowerCase rest2)
                   else plain
               end
      end
  end.

(** [data.key] inside a template literal. *)
Fixpoint get (data : list (string * string)) (key : string) : option string :=
  match data with
  | [] => None
  | (k, v) :: rest => if String.eqb k key then Some v else get rest key
  end.

Definition str (v : option string) : string :=
  match v with Some s => s | None => "undefined" end.

Definition truthy (v : option string) : bool :=
  match v with Some EmptyString | None => false | Some _ => true end.

(** A simulated provider call: logged; whether it fails is decided by the
    caller's [Math.random()] draw, not by the oracle. *)
Definition note (c : Call) : M unit :=
  modify (fun w => set_trace w (trace w ++ [c])).

(* ================================================================== *)
(** ** Prisma calls used by the handlers *)

Definition prisma_case_findUnique (id : string) : M (option Case.t) :=
  call (CaseFindUnique id) ;;;
  gets (fun w => find (fun c => String.eqb (Case.id c) id) (cases w)).

(** [prisma.case.upsert({ where: { caseNumber }, update, create })].  A
    created row gets a fresh id. *)
Definition prisma_case_upsert (caseNumber : string)
    (update : Case.t -> Case.t) (create : string -> Case.t) : M Case.t :=
  call (CaseUpsert caseNumber) ;;;
  cs <- gets cases ;;
  match find (fun c => String.eqb (Case.caseNumber c) caseNumber) cs with
  | Some old =>
      modify (fun w => set_cases w
        (map (fun c => if String.eqb (Case.caseNumber c) caseNumber
                       then update c else c) (cases w))) ;;;
      ret (update old)
  | None =>
      n <- gets nextId ;;
      let row := create ("case_" ++ string_of_nat n) in
      modify (fun w => set_nextId (set_cases w (cases w ++ [row])) (S n)) ;;;
      ret row
  end.

Definition prisma_caseFollow_findMany (caseId : string) : M (list CaseFollow.t) :=
  call (CaseFollowFindMany caseId) ;;;
  gets (fun w => filter (fun f => String.eqb (CaseFollow.caseId f) caseId)
                        (caseFollows w)).

Definition prisma_caseFollow_count (caseId : string) : M nat :=
  call (CaseFollowCount caseId) ;;;
  gets (fun w => List.length (filter (fun f => String.eqb (CaseFollow.caseId f) caseId)
                                (caseFollows w))).

(** [new Queue('notifications', ...).add(name, data)] *)
Definition notificationQueue_add (name : string) (data : NotificationJobData.t)
  : M unit :=
  let j := {| QJob.name := name; QJob.data := data |} in
  call (QueueAdd QNotifications j) ;;;
  modify (fun w => set_notificationQueue w (Queue.add (notificationQueue w) j)).

(* ================================================================== *)
(** ** services/CaseService.ts *)

Module CaseService.
Record t := { syncCaseFromExternalAPI : string -> M (option Case.t) }.
End CaseService.

Definition days30 : Z := 30 * 24 * 60 * 60 * 1000.

(** The mock of the external case-record source: a fixed snapshot for the
    case number, written through to the [case] table.  Status and judge of
    a created row are the schema's defaults. *)
Definition syncCaseFromExternalAPI (caseNumber : string) : M (option Case.t) :=
  tryCatch
    (t <- Date_now ;;
     let ext_title := "Legal Case " ++ caseNumber in
     let ext_court := "District Court" in
     let ext_nextHearing := t + days30 in
     caseRecord <- prisma_case_upsert caseNumber
       (fun c => {| Case.id := Case.id c; Case.caseNumber := Case.caseNumber c;
                    Case.title := ext_title; Case.court := ext_court;
                    Case.judge := Case.judge c; Case.status := Case.status c;
                    Case.filingDate := Case.filingDate c;
                    Case.nextHearing := Some ext_nextHearing;
                    Case.updatedAt := t |})
       (fun newId => {| Case.id := newId; Case.caseNumber := caseNumber;
                    Case.title := ext_title; Case.court := ext_court;
                    Case.judge := None; Case.status := CaseStatus.PENDING;
                    Case.filingDate := t;
                    Case.nextHearing := Some ext_nextHearing;
                    Case.updatedAt := t |}) ;;
     ret (Some caseRecord))
    (fun _ => ret None).

Definition caseService : CaseService.t :=
  {| CaseService.syncCaseFromExternalAPI := syncCaseFromExternalAPI |}.

(* ================================================================== *)
(** ** jobs/CaseSyncJob.ts *)

Section CaseSyncJob.
Context {jsDate : JsDate}.
Variable service : CaseService.t.        (* the imported [caseService] *)

Record CaseSyncResult := {
  success : bool;
  caseNumber : string;
  hasSignificantUpdate : bool
}.

Definition checkForSignificantUpdates (oldCase newCase : Case.t) : bool :=
  if negb (CaseStatus.eqb (Case.status oldCase) (Case.status newCase)) then true
  else if negb (option_eqb Z.eqb (Case.nextHearing oldCase) (Case.nextHearing newCase))
  then true
  else if negb (option_eqb String.eqb (Case.judge oldCase) (Case.judge newCase))
  then true
  else if negb (String.eqb (Case.court oldCase) (Case.court newCase)) then true
  else if negb (String.eqb (Case.title oldCase) (Case.title newCase)) then true
  else false.

(** The payload queued for one follower. *)
Definition caseUpdateNotification (caseId : string) (updatedCase : Case.t)
    (t : Z) (follow : CaseFollow.t) : NotificationJobData.t :=
  {| NotificationJobData.userId := CaseFollow.userId follow;
     NotificationJobData.type := "email";
     NotificationJobData.template := "case-update";
     NotificationJobData.data :=
       [ ("caseId", caseId);
         ("caseNumber", Case.caseNumber updatedCase);
         ("title", Case.title updatedCase);
         ("userName", User.firstName (CaseFollow.user follow) ++ " "
                        ++ User.lastName (CaseFollow.user follow));
         ("eventTitle", "Case information updated");
         ("eventDate", toISOString t) ] |}.

Definition processCaseSync (job : Job.t CaseSyncJobData.t) : M CaseSyncResult :=
  let caseId := CaseSyncJobData.caseId (Job.data job) in
  tryCatch
    (caseRecord <- prisma_case_findUnique caseId ;;
     match caseRecord with
     | None => throw ("Case " ++ caseId ++ " not found")
     | Some caseRecord =>
       updatedCase <- CaseService.syncCaseFromExternalAPI service
                        (Case.caseNumber caseRecord) ;;
       match updatedCase with
       | None =>
           throw ("Failed to sync case " ++ Case.caseNumber caseRecord
                    ++ " from external API")
       | Some updatedCase =>
         let hasSignificantUpdate :=
           checkForSignificantUpdates caseRecord updatedCase in
         (if hasSignificantUpdate then
            followers <- prisma_caseFollow_findMany caseId ;;
            if (0 <? List.length followers)%nat then
              forEach followers (fun follow =>
                t <- Date_now ;;
                notificationQueue_add "send-notification"
                  (caseUpdateNotification caseId updatedCase t follow))
            else ret tt
          else ret tt) ;;;
         (* the [followersNotified] figure of the completion log *)
         (if hasSignificantUpdate
          then (_ <- prisma_caseFollow_count caseId ;; ret tt)
          else ret tt) ;;;
         ret {| success := true;
                caseNumber := Case.caseNumber caseRecord;
                hasSignificantUpdate := hasSignificantUpdate |}
       end
     end)
    (fun error => throw error).

Record BatchResults := {
  successful : nat;
  failed : nat;
  errors : list string
}.

(** The job object the batch builds for one case: only [id] and [data]. *)
Definition batchItemJob (caseId : string) : Job.t CaseSyncJobData.t :=
  {| Job.id := "sync-" ++ caseId; Job.name := "";
     Job.data := {| CaseSyncJobData.caseId := caseId;
                    CaseSyncJobData.lastSyncAt := None |};
     Job.attemptsMade := 0; Job.attempts := 0 |}.

(** The body of [for (const caseId of caseIds)], threading [results]. *)
Fixpoint batchLoop (caseIds : list string) (results : BatchResults)
  : M BatchResults :=
  match caseIds with
  | [] => ret results
  | caseId :: rest =>
      results' <- tryCatch
        (_ <- processCaseSync (batchItemJob caseId) ;;
         ret {| successful := S (successful results);
                failed := failed results;
                errors := errors results |})
        (fun message =>
         ret {| successful := successful results;
                failed := S (failed results);
                errors := push (errors results)
                            ("Case " ++ caseId ++ ": " ++ message) |}) ;;
      batchLoop rest results'
  end.

Definition processBatchCaseSync (job : Job.t BatchCaseSyncJobData.t)
  : M BatchResults :=
  let caseIds := BatchCaseSyncJobData.caseIds (Job.data job) in
  tryCatch
    (batchLoop caseIds {| successful := 0; failed := 0; errors := [] |})
    (fun error => throw error).

End CaseSyncJob.

(* ================================================================== *)
(** ** jobs/SosDispatchJob.ts *)

Definition Qlt_bool (a b : Q) : bool := negb (Qle_bool b a).

(** The doubles [0.95] and [0.98], exactly. *)
Definition c0_95 : Q := (4278419646001971 # 4503599627370496)%Q.
Definition c0_98 : Q := (2206763817411543 # 2251799813685248)%Q.

Definition prisma_sosIncident_update (id : string) (st : SosStatus.t) (t : Z)
  : M unit :=
  call (SosIncidentUpdate id st) ;;;
  rows <- gets sosIncidents ;;
  if existsb (fun i => String.eqb (SosIncident.id i) id) rows then
    modify (fun w => set_sosIncidents w
      (map (fun i => if String.eqb (SosIncident.id i) id
                     then {| SosIncident.id := SosIncident.id i;
                             SosIncident.userId := SosIncident.userId i;
                             SosIncident.status := st;
                             SosIncident.updatedAt := t |}
                     else i) (sosIncidents w)))
  else throw "Record to update not found.".

(** Mock of an emergency service API: the first draw sets the delay of the
    timer, the second decides success (95%). *)
Definition simulateEmergencyServiceCall (service : string)
    (data : SosDispatchJobData.t) : M unit :=
  _ <- Math_random ;;
  note (EmergencyService service) ;;;
  r <- Math_random ;;
  if Qlt_bool r c0_95 then ret tt
  else throw ("Failed to notify " ++ service).

Record SosDispatchResult := {
  sos_success : bool;
  servicesNotified : list string
}.

Definition processSosDispatch (job : Job.t SosDispatchJobData.t)
  : M SosDispatchResult :=
  let incidentId := SosDispatchJobData.incidentId (Job.data job) in
  let priority := SosDispatchJobData.priority (Job.data job) in
  let services :=
    match priority with
    | SosPriority.CRITICAL | SosPriority.HIGH =>
        ["Police"; "Medical"; "Fire Department"]
    | SosPriority.MEDIUM => ["Police"]
    | _ => ["Local Security"]
    end in
  tryCatch
    (forEach services (fun service =>
       simulateEmergencyServiceCall service (Job.data job)) ;;;
     t <- Date_now ;;
     prisma_sosIncident_update incidentId SosStatus.ACKNOWLEDGED t ;;;
     ret {| sos_success := true; servicesNotified := services |})
    (fun error =>
     t <- Date_now ;;
     (* Keep as pending for retry *)
     prisma_sosIncident_update incidentId SosStatus.PENDING t ;;;
     throw error).

(* ================================================================== *)
(** ** jobs/NotificationJob.ts *)

Definition nl : string := String (ascii_of_nat 10) EmptyString.
Definition dq : string := String (ascii_of_nat 34) EmptyString.

Section NotificationJob.
Context {jsDate : JsDate}.

Definition generateEmailContent (template : string)
    (data : list (string * string)) : M Email.t :=
  t <- Date_now ;;
  ret
  (if String.eqb template "sos-status-update" then
     {| Email.subject :=
          "SOS Incident Update - " ++ str (get data "status");
        Email.html :=
          nl ++ "          <h2>SOS Incident Status Update</h2>" ++ nl
          ++ "          <p>Dear " ++ str (get data "userName") ++ ",</p>" ++ nl
          ++ "          <p>Your SOS incident has been updated:</p>" ++ nl
          ++ "          <ul>" ++ nl
          ++ "            <li><strong>Incident ID:</strong> "
          ++ str (get data "incidentId") ++ "</li>" ++ nl
          ++ "            <li><strong>Status:</strong> "
          ++ str (get data "status") ++ "</li>" ++ nl
          ++ "            <li><strong>Updated:</strong> " ++ toLocaleString t
          ++ "</li>" ++ nl ++ "          </ul>" ++ nl
          ++ "          <p>If you need immediate assistance, please contact emergency services directly.</p>"
          ++ nl ++ "          <p>Best regards,<br>NyayaMitra Team</p>" ++ nl
          ++ "        ";
        Email.text :=
          "SOS Incident Update - " ++ str (get data "status") ++ nl ++ nl
          ++ "Dear " ++ str (get data "userName") ++ "," ++ nl ++ nl
          ++ "Your SOS incident " ++ str (get data "incidentId")
          ++ " has been updated to status: " ++ str (get data "status") ++ nl
          ++ nl ++ "Updated: " ++ toLocaleString t ++ nl ++ nl
          ++ "If you need immediate assistance, please contact emergency services directly."
          ++ nl ++ nl ++ "Best regards," ++ nl ++ "NyayaMitra Team" |}
   else if String.eqb template "report-status-update" then
     {| Email.subject :=
          "Corruption Report Update - " ++ str (get data "status");
        Email.html :=
          nl ++ "          <h2>Corruption Report Status Update</h2>" ++ nl
          ++ "          <p>Dear " ++ str (get data "userName") ++ ",</p>" ++ nl
          ++ "          <p>Your corruption report has been updated:</p>" ++ nl
          ++ "          <ul>" ++ nl ++ "            <li><strong>Report:</strong> "
          ++ str (get data "title") ++ "</li>" ++ nl
          ++ "            <li><strong>Status:</strong> "
          ++ str (get data "status") ++ "</li>" ++ nl
          ++ "            <li><strong>Updated:</strong> " ++ toLocaleString t
          ++ "</li>" ++ nl ++ "            "
          ++ (if truthy (get data "resolution") then "<li><strong>Resolution:</strong> " ++ str (get data "resolution") ++ "</li>" else "")
          ++ nl ++ "          </ul>" ++ nl
          ++ "          <p>Thank you for your contribution to fighting corruption.</p>"
          ++ nl ++ "          <p>Best regards,<br>NyayaMitra Team</p>" ++ nl
          ++ "        ";
        Email.text :=
          "Corruption Report Update - " ++ str (get data "status") ++ nl ++ nl
          ++ "Dear " ++ str (get data "userName") ++ "," ++ nl ++ nl
          ++ "Your corruption report " ++ dq ++ str (get data "title") ++ dq
          ++ " has been updated to status: " ++ str (get data "status") ++ nl
          ++ nl
          ++ (if truthy (get data "resolution") then "Resolution: " ++ str (get data "resolution") ++ nl else "")
          ++ "Updated: " ++ toLocaleString t ++ nl ++ nl
          ++ "Thank you for your contribution to fighting corruption." ++ nl ++ nl
          ++ "Best regards," ++ nl ++ "NyayaMitra Team" |}
   else if String.eqb template "case-update" then
     {| Email.subject :=
          "Case Update - " ++ str (get data "caseNumber");
        Email.html :=
          nl ++ "          <h2>Case Update Notification</h2>" ++ nl
          ++ "          <p>Dear " ++ str (get data "userName") ++ ",</p>" ++ nl
          ++ "          <p>A case you are following has been updated:</p>" ++ nl
          ++ "          <ul>" ++ nl ++ "            <li><strong>Case:</strong> "
          ++ str (get data "caseNumber") ++ " - " ++ str (get data "title")
          ++ "</li>" ++ nl ++ "            <li><strong>Update:</strong> "
          ++ str (get data "eventTitle") ++ "</li>" ++ nl
          ++ "            <li><strong>Date:</strong> "
          ++ toLocaleDateString (get data "eventDate") ++ "</li>" ++ nl
          ++ "          </ul>" ++ nl
          ++ "          <p>You can view the full details in your NyayaMitra dashboard.</p>"
          ++ nl ++ "          <p>Best regards,<br>NyayaMitra Team</p>" ++ nl
          ++ "        ";
        Email.text :=
          "Case Update - " ++ str (get data "caseNumber") ++ nl ++ nl ++ "Dear "
          ++ str (get data "userName") ++ "," ++ nl ++ nl
          ++ "A case you are following has been updated:" ++ nl ++ nl ++ "Case: "
          ++ str (get data "caseNumber") ++ " - " ++ str (get data "title") ++ nl
          ++ "Update: " ++ str (get data "eventTitle") ++ nl ++ "Date: "
          ++ toLocaleDateString (get data "eventDate") ++ nl ++ nl
          ++ "You can view the full details in your NyayaMitra dashboard." ++ nl
          ++ nl ++ "Best regards," ++ nl ++ "NyayaMitra Team" |}
   else
     {| Email.subject := "NyayaMitra Notification";
        Email.html := "<p>You have a new notification from NyayaMitra.</p>";
        Email.text := "You have a new notification from NyayaMitra." |}).

Definition generateSMSContent (template : string)
    (data : list (string * string)) : M string :=
  t <- Date_now ;;
  ret
  (if String.eqb template "sos-status-update" then
          "NyayaMitra: Your SOS incident " ++ str (get data "incidentId")
          ++ " status updated to " ++ str (get data "status") ++ ". Updated: "
          ++ toLocaleString t
   else if String.eqb template "report-status-update" then
          "NyayaMitra: Your corruption report status updated to "
          ++ str (get data "status") ++ ". "
          ++ (if truthy (get data "resolution") then "Resolution: " ++ str (get data "resolution") else "")
   else if String.eqb template "case-update" then
          "NyayaMitra: Case " ++ str (get data "caseNumber") ++ " updated - "
          ++ str (get data "eventTitle") ++ ". Date: "
          ++ toLocaleDateString (get data "eventDate")
   else "You have a new notification from NyayaMitra.").

(** Mock providers: the first draw sets the delay, the second decides
    success (98% for email, 95% for SMS). *)
Definition simulateEmailSend (content : Email.t) : M unit :=
  _ <- Math_random ;;
  note (EmailSend content) ;;;
  r <- Math_random ;;
  if Qlt_bool r c0_98 then ret tt else throw "Email delivery failed".

Definition simulateSMSSend (message : string) : M unit :=
  _ <- Math_random ;;
  note (SmsSend message) ;;;
  r <- Math_random ;;
  if Qlt_bool r c0_95 then ret tt else throw "SMS delivery failed".

Definition sendEmailNotification (userId template : string)
    (data : list (string * string)) : M unit :=
  tryCatch
    (emailContent <- generateEmailContent template data ;;
     simulateEmailSend emailContent)
    (fun error => throw error).

Definition sendSMSNotification (userId template : string)
    (data : list (string * string)) : M unit :=
  tryCatch
    (smsContent <- generateSMSContent template data ;;
     simulateSMSSend smsContent)
    (fun error => throw error).

Record NotificationResult := {
  n_success : bool;
  n_type : string;
  n_template : string
}.

Definition processNotification (job : Job.t NotificationJobData.t)
  : M NotificationResult :=
  let userId := NotificationJobData.userId (Job.data job) in
  let type := NotificationJobData.type (Job.data job) in
  let template := NotificationJobData.template (Job.data job) in
  let data := NotificationJobData.data (Job.data job) in
  tryCatch
    ((if String.eqb type "email" then sendEmailNotification userId template data
      else if String.eqb type "sms" then sendSMSNotification userId template data
      else throw ("Unsupported notification type: " ++ type)) ;;;
     ret {| n_success := true; n_type := type; n_template := template |})
    (fun error => throw error).

End NotificationJob.

(* ================================================================== *)
(** ** jobs/index.ts: queue monitoring *)

Record QueueStats := {
  q_name : string;
  q_waiting : nat;
  q_active : nat;
  q_completed : nat;
  q_failed : nat;
  q_delayed : nat
}.

Definition queueOf (q : QueueName) (w : World) : Queue.t :=
  match q with
  | QSosDispatch => sosDispatchQueue w
  | QNotifications => notificationQueue w
  | QCaseSync => caseSyncQueue w
  | QReportTriage => reportTriageQueue w
  end.

(** [queue.getWaiting()], [queue.getActive()], ... *)
Definition queue_get (q : QueueName) (state : JobState) : M (list QJob.t) :=
  call (QueueGet q state) ;;;
  gets (fun w =>
    match state with
    | Waiting => Queue.waiting (queueOf q w)
    | Active => Queue.active (queueOf q w)
    | Completed => Queue.completed (queueOf q w)
    | Failed => Queue.failed (queueOf q w)
    | Delayed => Queue.delayed (queueOf q w)
    end).

(** [xs.map(async f)] under [Promise.all], run one after the other. *)
Fixpoint mapM {A B} (f : A -> M B) (xs : list A) : M (list B) :=
  match xs with
  | [] => ret []
  | x :: rest => y <- f x ;; ys <- mapM f rest ;; ret (y :: ys)
  end.

(** The arrow function [getQueueStats] maps over the queues. *)
Definition queueStats (queue : QueueName) : M QueueStats :=
  name <- gets (fun w => Queue.name (queueOf queue w)) ;;
  waiting <- queue_get queue Waiting ;;
  active <- queue_get queue Active ;;
  completed <- queue_get queue Completed ;;
  failed <- queue_get queue Failed ;;
  delayed <- queue_get queue Delayed ;;
  ret {| q_name := name;
         q_waiting := List.length waiting;
         q_active := List.length active;
         q_completed := List.length completed;
         q_failed := List.length failed;
         q_delayed := List.length delayed |}.

Definition getQueueStats : M (list QueueStats) :=
  let queues := [QSosDispatch; QNotifications; QCaseSync; QReportTriage] in
  mapM queueStats queues.

Inductive HealthStatus := healthy | degraded | unhealthy.

Record WorkerStatus := { ws_name : string; ws_status : string }.

Record Health := {
  h_status : HealthStatus;
  h_workers : list WorkerStatus;
  h_queues : list QueueStats
}.

Definition checkJobSystemHealth : M Health :=
  ws <- gets workers ;;
  let workerStatuses :=
    map (fun worker =>
           {| ws_name := Worker.name worker;
              ws_status := if Worker.isRunning worker
                           then "running" else "stopped" |}) ws in
  let allWorkersRunning :=
    forallb (fun w => String.eqb (ws_status w) "running") workerStatuses in
  queueStats <- getQueueStats ;;
  let status :=
    if negb allWorkersRunning then unhealthy
    else if existsb (fun q => (10 <? q_failed q)%nat) queueStats then degraded
    else healthy in
  ret {| h_status := status; h_workers := workerStatuses;
         h_queues := queueStats |}.

(* ================================================================== *)
(** ** jobs/ReportTriageJob.ts *)

Definition prisma_corruptionReport_findUnique (id : string)
  : M (option Report.t) :=
  call (ReportFindUnique id) ;;;
  gets (fun w => find (fun r => String.eqb (Report.id r) id)
                      (corruptionReports w)).

(** [prisma.corruptionReport.update]: a field given as [undefined] is left
    as it is. *)
Definition prisma_corruptionReport_update (id : string) (st : ReportStatus.t)
    (assignee : option string) (t : Z) : M unit :=
  call (ReportUpdate id st assignee) ;;;
  rows <- gets corruptionReports ;;
  if existsb (fun r => String.eqb (Report.id r) id) rows then
    modify (fun w => set_corruptionReports w
      (map (fun r => if String.eqb (Report.id r) id
                     then {| Report.id := Report.id r;
                             Report.title := Report.title r;
                             Report.description := Report.description r;
                             Report.department := Report.department r;
                             Report.status := st;
                             Report.assignedTo :=
                               match assignee with
                               | Some a => Some a
                               | None => Report.assignedTo r
                               end;
                             Report.createdAt := Report.createdAt r;
                             Report.updatedAt := t |}
                     else r) (corruptionReports w)))
  else throw "Record to update not found.".

(** [count({ where: { assignedTo, status: { in: [UNDER_REVIEW, INVESTIGATING] } } })] *)
Definition prisma_corruptionReport_count (moderatorId : string) : M nat :=
  call (ReportCount moderatorId) ;;;
  gets (fun w => List.length (filter
    (fun r => andb (option_eqb String.eqb (Report.assignedTo r) (Some moderatorId))
                   (orb (ReportStatus.eqb (Report.status r) ReportStatus.UNDER_REVIEW)
                        (ReportStatus.eqb (Report.status r) ReportStatus.INVESTIGATING)))
    (corruptionReports w))).

(** [count({ where: { corruptionReportId, uploadStatus: 'COMPLETED' } })] *)
Definition prisma_mediaAsset_count (reportId : string) : M nat :=
  call (MediaAssetCount reportId) ;;;
  gets (fun w => List.length (filter
    (fun a => andb (option_eqb String.eqb (MediaAsset.corruptionReportId a)
                                          (Some reportId))
                   (UploadStatus.eqb (MediaAsset.uploadStatus a)
                                     UploadStatus.COMPLETED))
    (mediaAssets w))).

(** [findMany({ where: { role: { in: roles }, isActive: true } })] *)
Definition prisma_user_findMany (roles : list UserRole.t) : M (list User.t) :=
  call (UserFindMany roles) ;;;
  gets (fun w => filter
    (fun u => andb (existsb (UserRole.eqb (User.role u)) roles) (User.isActive u))
    (users w)).

Record ModeratorWorkload := { moderatorId : string; workload : nat }.

(** [Array.prototype.sort((a, b) => a.workload - b.workload)]: ascending and
    stable (ECMAScript 2019; the image runs Node 18). *)
Fixpoint insertByWorkload (x : ModeratorWorkload) (l : list ModeratorWorkload)
  : list ModeratorWorkload :=
  match l with
  | [] => [x]
  | y :: rest => if (workload x <=? workload y)%nat then x :: y :: rest
                 else y :: insertByWorkload x rest
  end.

Fixpoint sortByWorkload (l : list ModeratorWorkload) : list ModeratorWorkload :=
  match l with
  | [] => []
  | x :: rest => insertByWorkload x (sortByWorkload rest)
  end.

(** [xs[i].moderatorId]: a TypeError when [xs[i]] is undefined. *)
Definition moderatorIdAt (xs : list ModeratorWorkload) (i : Z) : M string :=
  if i <? 0 then throw "TypeError: Cannot read properties of undefined"
  else match nth_error xs (Z.to_nat i) with
       | Some m => ret (moderatorId m)
       | None => throw "TypeError: Cannot read properties of undefined"
       end.

(** A JavaScript Number is an IEEE 754 binary64; the finite ones are
    rationals.  [round64 x] is the Number that an arithmetic operation with
    the exact result [x] returns: [x] rounded to 53 significant bits (fewer
    below [2^-1022], where the last place stays [2^-1074]), to the nearest
    such number and to the one with the even significand on a tie.  The
    overflow to Infinity from [2^1024] on is left out: the products taken
    here are below the length of an array. *)
Definition pow2 (e : Z) : Q := (2 ^ e)%Q.

(** [floor (log2 x)] for [0 < x] *)
Definition binade (x : Q) : Z :=
  let e0 := Z.log2 (Qnum x) - Z.log2 (Zpos (Qden x)) in
  if Qle_bool (pow2 e0) x then e0 else e0 - 1.

(** The unit in the last place of the binary64 numbers around [x]. *)
Definition ulp64 (x : Q) : Q := pow2 (Z.max (binade (Qabs x)) (-1022) - 52).

(** The nearest integer, the even one on a tie. *)
Definition roundHalfEven (q : Q) : Z :=
  let f := Qfloor q in
  match (q - inject_Z f ?= 1 # 2)%Q with
  | Lt => f
  | Gt => f + 1
  | Eq => if Z.even f then f else f + 1
  end.

Definition round64 (x : Q) : Q :=
  if Qeq_bool x 0 then 0%Q
  else (inject_Z (roundHalfEven (x / ulp64 x)) * ulp64 x)%Q.


(** [Math.floor(Math.random() * n)]: the product is a Number. *)
Definition randomIndexOf (r : Q) (n : nat) : Z :=
  Qfloor (round64 (r * inject_Z (Z.of_nat n))).

Definition findBestModerator (department : string) (priority : Priority.t)
  : M (option string) :=
  tryCatch
    (moderators <- prisma_user_findMany [UserRole.MODERATOR] ;;
     if (List.length moderators =? 0)%nat then ret None
     else
       moderatorWorkloads <- mapM (fun moderator =>
           assignedReports <- prisma_corruptionReport_count (User.id moderator) ;;
           ret {| moderatorId := User.id moderator;
                  workload := assignedReports |}) moderators ;;
       let moderatorWorkloads := sortByWorkload moderatorWorkloads in
       if Priority.eqb priority Priority.HIGH then
         m <- moderatorIdAt moderatorWorkloads 0 ;; ret (Some m)
       else
         let availableModerators :=
           filter (fun m => (workload m <? 10)%nat) moderatorWorkloads in
         if (0 <? List.length availableModerators)%nat then
           r <- Math_random ;;
           let randomIndex := randomIndexOf r (List.length availableModerators) in
           m <- moderatorIdAt availableModerators randomIndex ;; ret (Some m)
         else
           m <- moderatorIdAt moderatorWorkloads 0 ;; ret (Some m))
    (fun _ => ret None).

Record TriageResult := {
  t_status : ReportStatus.t;
  t_assignedTo : option string;
  t_priority : Priority.t;
  t_reasoning : list string
}.

Definition highPriorityKeywords : list string :=
  [ "bribe"; "extortion"; "fraud"; "embezzlement"; "money laundering";
    "large amount"; "minister"; "senior official"; "urgent"; "ongoing" ].

Definition mediumPriorityKeywords : list string :=
  [ "nepotism"; "favoritism"; "misuse"; "irregularity"; "violation" ].

Definition highPriorityDepartments : list string :=
  [ "police"; "judiciary"; "revenue"; "customs"; "banking" ].

Definition day_ms : Z := 24 * 60 * 60 * 1000.

(** [performAutoTriage] is cut at its comments into the blocks that update
    the two locals [priority] and [reasoning]; [Triage] is that pair. *)
Definition Triage : Type := Priority.t * list string.

Definition contentOf (report : Report.t) : string :=
  toLowerCase (Report.title report ++ " " ++ Report.description report).

(** "Check for high priority indicators", "Check for medium priority
    indicators" *)
Definition triageKeywords (content : string) (st : Triage) : Triage :=
  let '(priority, reasoning) := st in
  let highMatches := filter (fun keyword => includes content keyword)
                            highPriorityKeywords in
  let '(priority, reasoning) :=
    if (0 <? List.length highMatches)%nat
    then (Priority.HIGH,
          push reasoning ("High priority keywords detected: "
                            ++ join ", " highMatches))
    else (priority, reasoning) in
  let mediumMatches := filter (fun keyword => includes content keyword)
                              mediumPriorityKeywords in
  if andb (0 <? List.length mediumMatches)%nat
          (negb (Priority.eqb priority Priority.HIGH))
  then (Priority.MEDIUM,
        push reasoning ("Medium priority keywords detected: "
                          ++ join ", " mediumMatches))
  else (priority, reasoning).

(** "Check department for priority adjustment" *)
Definition triageDepartment (report : Report.t) (st : Triage) : Triage :=
  let '(priority, reasoning) := st in
  if existsb (fun dept => includes (toLowerCase (Report.department report)) dept)
             highPriorityDepartments
  then
    let priority := if Priority.eqb priority Priority.MEDIUM
                    then Priority.HIGH else priority in
    let priority := if Priority.eqb priority Priority.LOW
                    then Priority.MEDIUM else priority in
    (priority,
     push reasoning ("High-impact department: " ++ Report.department report))
  else (priority, reasoning).

(** "Check for evidence attachments", after the count *)
Definition triageEvidence (evidenceCount : nat) (st : Triage) : Triage :=
  let '(priority, reasoning) := st in
  if (0 <? evidenceCount)%nat
  then
    let reasoning :=
      push reasoning (string_of_nat evidenceCount ++ " evidence file(s) attached") in
    ((if Priority.eqb priority Priority.LOW then Priority.MEDIUM else priority),
     reasoning)
  else (priority, reasoning).

(** "Check recency" *)
Definition triageRecency (report : Report.t) (t : Z) (content : string)
    (st : Triage) : Triage :=
  let '(priority, reasoning) := st in
  let reportAge := t - Report.createdAt report in
  let isRecent := reportAge <? day_ms in
  if andb isRecent (includes content "ongoing")
  then ((if Priority.eqb priority Priority.MEDIUM then Priority.HIGH else priority),
        push reasoning "Recent report mentioning ongoing corruption")
  else (priority, reasoning).

Definition performAutoTriage (report : Report.t) : M TriageResult :=
  let st : Triage := (Priority.MEDIUM, []) in
  let content := contentOf report in
  let st := triageKeywords content st in
  let st := triageDepartment report st in
  evidenceCount <- prisma_mediaAsset_count (Report.id report) ;;
  let st := triageEvidence evidenceCount st in
  t <- Date_now ;;
  let '(priority, reasoning) := triageRecency report t content st in
  (* assignee *)
  assignedTo <- findBestModerator (Report.department report) priority ;;
  let reasoning :=
    match assignedTo with
    | Some _ => push reasoning "Assigned to moderator based on expertise and workload"
    | None => reasoning
    end in
  (* status *)
  let '(status, reasoning) :=
    if Priority.eqb priority Priority.HIGH
    then (ReportStatus.INVESTIGATING,
          push reasoning "High priority - moved directly to investigation")
    else (ReportStatus.UNDER_REVIEW, reasoning) in
  ret {| t_status := status; t_assignedTo := assignedTo;
         t_priority := priority; t_reasoning := reasoning |}.

(** The payload queued for one moderator or admin. *)
Definition highPriorityReportNotification (report : Report.t)
    (triageResult : TriageResult) (moderator : User.t) : NotificationJobData.t :=
  {| NotificationJobData.userId := User.id moderator;
     NotificationJobData.type := "email";
     NotificationJobData.template := "high-priority-report";
     NotificationJobData.data :=
       [ ("reportId", Report.id report);
         ("title", Report.title report);
         ("department", Report.department report);
         ("priority", Priority.toString (t_priority triageResult));
         ("reasoning", join "; " (t_reasoning triageResult));
         ("moderatorName", User.firstName moderator ++ " "
                             ++ User.lastName moderator) ] |}.

Definition notifyModerators (report : Report.t) (triageResult : TriageResult)
  : M unit :=
  tryCatch
    (moderators <- prisma_user_findMany [UserRole.MODERATOR; UserRole.ADMIN] ;;
     forEach moderators (fun moderator =>
       notificationQueue_add "send-notification"
         (highPriorityReportNotification report triageResult moderator)))
    (fun _ => ret tt).

Definition processReportTriage (job : Job.t ReportTriageJobData.t)
  : M TriageResult :=
  let reportId := ReportTriageJobData.reportId (Job.data job) in
  tryCatch
    (report <- prisma_corruptionReport_findUnique reportId ;;
     match report with
     | None => throw ("Report " ++ reportId ++ " not found")
     | Some report =>
       triageResult <- performAutoTriage report ;;
       t <- Date_now ;;
       prisma_corruptionReport_update reportId (t_status triageResult)
         (t_assignedTo triageResult) t ;;;
       (if Priority.eqb (t_priority triageResult) Priority.HIGH
        then notifyModerators report triageResult
        else ret tt) ;;;
       ret triageResult
     end)
    (fun error => throw error).

(* ================================================================== *)
(** ** Vocabulary of the statements *)

(** A handler leaves the observation [f] of the world as it found it. *)
Definition preserves {X A} (f : World -> X) (m : M A) : Prop :=
  forall w r w', m w = (r, w') -> f w' = f w.

(** A handler never rejects. *)
Definition total {A} (m : M A) : Prop :=
  forall w, exists a w', m w = (Ok a, w').

(** The names of the services reached, in the order of the calls. *)
Fixpoint servicesCalled (tr : list Call) : list string :=
  match tr with
  | [] => []
  | EmergencyService s :: rest => s :: servicesCalled rest
  | _ :: rest => servicesCalled rest
  end.

(** The draw that decides the [k]-th provider call of a run: each call takes
    two draws, the delay and then the outcome. *)
Definition outcomeDraw (rs : list Q) (k : nat) : Q := nth (2 * k + 1) rs 0%Q.

Definition passes (rs : list Q) (k : nat) : bool :=
  Qlt_bool (outcomeDraw rs k) c0_95.

(** The service set the specification documents for a priority tier. *)
Definition documentedServices (p : SosPriority.t) : list string :=
  match p with
  | SosPriority.CRITICAL => ["Police"; "Medical"; "Fire Department"]
  | SosPriority.HIGH => ["Police"; "Medical"; "Fire Department"]
  | SosPriority.MEDIUM => ["Police"]
  | SosPriority.LOW => ["Local Security"]
  end.

Definition sosStatusOf (w : World) (id : string) : option SosStatus.t :=
  option_map SosIncident.status
    (find (fun i => String.eqb (SosIncident.id i) id) (sosIncidents w)).

Definition reportOf (w : World) (id : string) : option Report.t :=
  find (fun r => String.eqb (Report.id r) id) (corruptionReports w).

(** This attempt is the last one the queue grants the job. *)
Definition retriesExhausted {D} (job : Job.t D) : bool :=
  (Job.attempts job <=? S (Job.attemptsMade job))%nat.

(** The two case records differ in one of the five compared fields. *)
Definition fieldsDiffer (oldCase newCase : Case.t) : Prop :=
  Case.status oldCase <> Case.status newCase \/
  Case.nextHearing oldCase <> Case.nextHearing newCase \/
  Case.judge oldCase <> Case.judge newCase \/
  Case.court oldCase <> Case.court newCase \/
  Case.title oldCase <> Case.title newCase.

(** The followers of a case, as [findMany] lists them. *)
Definition followersOf (w : World) (caseId : string) : list CaseFollow.t :=
  filter (fun f => String.eqb (CaseFollow.caseId f) caseId) (caseFollows w).

(** The moderators [findBestModerator] chooses from, with their workload. *)
Definition activeModerators (w : World) : list User.t :=
  filter (fun u => andb (existsb (UserRole.eqb (User.role u)) [UserRole.MODERATOR])
                        (User.isActive u)) (users w).

Definition openReports (w : World) (moderator : string) : nat :=
  List.length (filter
    (fun r => andb (option_eqb String.eqb (Report.assignedTo r) (Some moderator))
                   (orb (ReportStatus.eqb (Report.status r) ReportStatus.UNDER_REVIEW)
                        (ReportStatus.eqb (Report.status r) ReportStatus.INVESTIGATING)))
    (corruptionReports w)).

Definition workloadsOf (w : World) : list ModeratorWorkload :=
  map (fun u => {| moderatorId := User.id u; workload := openReports w (User.id u) |})
      (activeModerators w).

(** [m] is the first entry of [l] with the least workload. *)
Definition leastBusyFirst (m : ModeratorWorkload) (l : list ModeratorWorkload)
  : Prop :=
  exists before after,
    l = (before ++ m :: after)%list /\
    Forall (fun x => (workload m < workload x)%nat) before /\
    Forall (fun x => (workload m <= workload x)%nat) after.

(** The counts of a queue in a world. *)
Definition statsOf (w : World) (q : QueueName) : QueueStats :=
  {| q_name := Queue.name (queueOf q w);
     q_waiting := List.length (Queue.waiting (queueOf q w));
     q_active := List.length (Queue.active (queueOf q w));
     q_completed := List.length (Queue.completed (queueOf q w));
     q_failed := List.length (Queue.failed (queueOf q w));
     q_delayed := List.length (Queue.delayed (queueOf q w)) |}.

Definition statusOfWorker (worker : Worker.t) : WorkerStatus :=
  {| ws_name := Worker.name worker;
     ws_status := if Worker.isRunning worker then "running" else "stopped" |}.

(** The completed evidence files of a report. *)
Definition evidenceCountOf (w : World) (reportId : string) : nat :=
  List.length (filter
    (fun a => andb (option_eqb String.eqb (MediaAsset.corruptionReportId a)
                                          (Some reportId))
                   (UploadStatus.eqb (MediaAsset.uploadStatus a)
                                     UploadStatus.COMPLETED))
    (mediaAssets w)).

(** The priority [performAutoTriage] reaches with [n] evidence files at
    time [t]. *)
Definition triagePriority (report : Report.t) (n : nat) (t : Z) : Priority.t :=
  fst (triageRecency report t (contentOf report)
         (triageEvidence n
            (triageDepartment report
               (triageKeywords (contentOf report) (Priority.MEDIUM, []))))).

(** The calls [calls], made in this order after the history [h], are all
    accepted by the oracle. *)
Fixpoint accepted (oracle : list Call -> Call -> option string)
    (h calls : list Call) : Prop :=
  match calls with
  | [] => True
  | c :: rest => oracle h c = None /\ accepted oracle (h ++ [c]) rest
  end.

(** A handler that returns only when each call it made was accepted. *)
Definition honest {A} (m : M A) : Prop :=
  forall w a w',
    m w = (Ok a, w') ->
    fails w' = fails w /\
    exists calls, trace w' = (trace w ++ calls)%list /\
                  accepted (fails w) (trace w) calls.

Definition nextRandom (w : World) : Q :=
  match random w with [] => 0%Q | r :: _ => r end.

Definition genericEmail : Email.t :=
  {| Email.subject := "NyayaMitra Notification";
     Email.html := "<p>You have a new notification from NyayaMitra.</p>";
     Email.text := "You have a new notification from NyayaMitra." |}.

Definition genericSMS : string := "You have a new notification from NyayaMitra.".

Definition templateTable : list string :=
  [ "sos-status-update"; "report-status-update"; "case-update" ].

(** The outcomes of syncing the cases of a batch one after the other, each
    from the world its predecessor left. *)
Inductive syncedInTurn `{JsDate} (service : CaseService.t)
  : list string -> World -> list (Result CaseSyncResult) -> World -> Prop :=
| synced_nil w : syncedInTurn service [] w [] w
| synced_cons caseId rest w r w1 rs w2 :
    processCaseSync service (batchItemJob caseId) w = (r, w1) ->
    syncedInTurn service rest w1 rs w2 ->
    syncedInTurn service (caseId :: rest) w (r :: rs) w2.

Definition isOk {A} (r : Result A) : bool :=
  match r with Ok _ => true | Throw _ => false end.

(** The entries of [results.errors] for the failed cases of a batch. *)
Fixpoint batchErrors {A} (caseIds : list string) (rs : list (Result A))
  : list string :=
  match caseIds, rs with
  | caseId :: ids, Throw message :: rest =>
      ("Case " ++ caseId ++ ": " ++ message) :: batchErrors ids rest
  | _ :: ids, Ok _ :: rest => batchErrors ids rest
  | _, _ => []
  end.

(* ------------------------------------------------------------------ *)
(** *** Worlds and jobs of the examples *)

(** Dates rendered as their millisecond count. *)
#[global] Instance plainDates : JsDate :=
  {| toISOString := string_of_Z;
     toLocaleString := string_of_Z;
     toLocaleDateString := fun v => str v |}.

Definition emptyQueue (name : string) : Queue.t :=
  {| Queue.name := name; Queue.waiting := []; Queue.active := [];
     Queue.completed := []; Queue.failed := []; Queue.delayed := [] |}.

(** A world with empty queues, a fixed clock and no trace. *)
Definition mkWorld (cs : list Case.t) (follows : list CaseFollow.t)
    (us : list User.t) (reports : list Report.t) (media : list MediaAsset.t)
    (incidents : list SosIncident.t) (ws : list Worker.t) (draws : list Q)
    (oracle : list Call -> Call -> option string) : World :=
  {| cases := cs; caseFollows := follows; users := us;
     corruptionReports := reports; mediaAssets := media;
     sosIncidents := incidents;
     sosDispatchQueue := emptyQueue "sos-dispatch";
     notificationQueue := emptyQueue "notifications";
     caseSyncQueue := emptyQueue "case-sync";
     reportTriageQueue := emptyQueue "report-triage";
     workers := ws; now := 1700000000000; random := draws; nextId := 0;
     fails := oracle; trace := [] |}.

Definition never : list Call -> Call -> option string := fun _ _ => None.

Definition mkJob {D} (name : string) (data : D) (attemptsMade attempts : nat)
  : Job.t D :=
  {| Job.id := "1"; Job.name := name; Job.data := data;
     Job.attemptsMade := attemptsMade; Job.attempts := attempts |}.

Definition mkUser (id : string) (role : UserRole.t) : User.t :=
  {| User.id := id; User.role := role; User.isActive := true;
     User.firstName := "Asha"; User.lastName := "Rao" |}.


Definition asha : User.t := mkUser "u1" UserRole.CITIZEN.
Definition ravi : User.t := mkUser "u2" UserRole.ADVOCATE.

Definition mkFollow (u : User.t) (caseId : string) : CaseFollow.t :=
  {| CaseFollow.userId := User.id u; CaseFollow.caseId := caseId;
     CaseFollow.user := u |}.

(** A stored case whose court and title already equal the snapshot of the
    source, and one whose title does not. *)
Definition storedCase (id number title : string) (hearing : option Z) : Case.t :=
  {| Case.id := id; Case.caseNumber := number; Case.title := title;
     Case.court := "District Court"; Case.judge := None;
     Case.status := CaseStatus.ONGOING; Case.filingDate := 0;
     Case.nextHearing := hearing; Case.updatedAt := 0 |}.

Definition syncWorld : World :=
  mkWorld [ storedCase "c1" "CN-1" "State v. Rao" None;
            storedCase "c2" "CN-2" "Legal Case CN-2"
                       (Some (1700000000000 + days30)) ]
          [ mkFollow asha "c1"; mkFollow ravi "c1"; mkFollow asha "c2" ]
          [ asha; ravi ] [] [] [] [] [] never.

Definition syncJob (caseId : string) : Job.t CaseSyncJobData.t :=
  mkJob "sync-case" {| CaseSyncJobData.caseId := caseId;
                       CaseSyncJobData.lastSyncAt := None |} 0 2.

(** The row the mock source leaves for a stored case. *)
Definition syncedCase (id number : string) : Case.t :=
  {| Case.id := id; Case.caseNumber := number;
     Case.title := "Legal Case " ++ number;
     Case.court := "District Court"; Case.judge := None;
     Case.status := CaseStatus.ONGOING; Case.filingDate := 0;
     Case.nextHearing := Some (1700000000000 + days30);
     Case.updatedAt := 1700000000000 |}.

Definition batchJob (caseIds : list string) : Job.t BatchCaseSyncJobData.t :=
  mkJob "batch-sync-cases" {| BatchCaseSyncJobData.caseIds := caseIds |} 0 1.

(** An incident a moderator has acknowledged by hand, and the second of
    three attempts of its dispatch job; the draws make the first service
    call fail. *)
Definition mkIncident (id : string) (st : SosStatus.t) : SosIncident.t :=
  {| SosIncident.id := id; SosIncident.userId := "u1";
     SosIncident.status := st; SosIncident.updatedAt := 0 |}.

Definition sosData (id : string) (p : SosPriority.t) : SosDispatchJobData.t :=
  {| SosDispatchJobData.incidentId := id;
     SosDispatchJobData.location :=
       {| Location.lat := (12 # 1)%Q; Location.lng := (77 # 1)%Q;
          Location.address := "MG Road" |};
     SosDispatchJobData.description := "help";
     SosDispatchJobData.priority := p;
     SosDispatchJobData.userContact :=
       {| Contact.phone := None; Contact.email := "asha@example.org" |} |}.

Definition sosWorld (st : SosStatus.t) (draws : list Q) : World :=
  mkWorld [] [] [asha] [] [] [mkIncident "inc1" st] [] draws never.

Definition failingDraws : list Q := [ 0%Q; (99 # 100)%Q ].

Definition retriedSosJob : Job.t SosDispatchJobData.t :=
  mkJob "dispatch-sos" (sosData "inc1" SosPriority.HIGH) 1 3.

(** Four running workers and a notification queue with eleven failed jobs. *)
Definition someJob : QJob.t :=
  {| QJob.name := "send-notification";
     QJob.data := {| NotificationJobData.userId := "u1";
                     NotificationJobData.type := "email";
                     NotificationJobData.template := "case-update";
                     NotificationJobData.data := [] |} |}.

Definition runningWorkers : list Worker.t :=
  [ {| Worker.name := "sos-dispatch"; Worker.isRunning := true |};
    {| Worker.name := "notifications"; Worker.isRunning := true |};
    {| Worker.name := "case-sync"; Worker.isRunning := true |};
    {| Worker.name := "report-triage"; Worker.isRunning := true |} ].

Definition degradedWorld : World :=
  let w := mkWorld [] [] [] [] [] [] runningWorkers [] never in
  set_notificationQueue w
    {| Queue.name := "notifications"; Queue.waiting := []; Queue.active := [];
       Queue.completed := []; Queue.failed := repeat someJob 11;
       Queue.delayed := [] |}.

(** Two active moderators, an admin and a deactivated moderator; [m1] has
    one open report, [m2] none.  The report to triage is an hour old, names a
    bribe, and has one completed and one pending evidence file. *)
Definition mkReport (id title description department : string)
    (st : ReportStatus.t) (assignee : option string) (created : Z) : Report.t :=
  {| Report.id := id; Report.title := title; Report.description := description;
     Report.department := department; Report.status := st;
     Report.assignedTo := assignee; Report.createdAt := created;
     Report.updatedAt := created |}.

Definition bribeReport : Report.t :=
  mkReport "r1" "Bribe by senior official" "It is ongoing." "Police"
         ReportStatus.SUBMITTED None (1700000000000 - 3600000).

Definition parkingReport : Report.t :=
  mkReport "r3" "Parking permits" "Slow handling of permits." "Transport"
         ReportStatus.SUBMITTED None (1700000000000 - 3600000).

Definition triageWorld (draws : list Q)
    (oracle : list Call -> Call -> option string) : World :=
  mkWorld [] []
    [ mkUser "m1" UserRole.MODERATOR; mkUser "m2" UserRole.MODERATOR;
      mkUser "a1" UserRole.ADMIN;
      {| User.id := "m3"; User.role := UserRole.MODERATOR;
         User.isActive := false; User.firstName := "Old"; User.lastName := "Mod" |} ]
    [ bribeReport;
      mkReport "r2" "x" "y" "Revenue" ReportStatus.UNDER_REVIEW (Some "m1") 0;
      parkingReport ]
    [ {| MediaAsset.id := "a1"; MediaAsset.corruptionReportId := Some "r1";
         MediaAsset.uploadStatus := UploadStatus.COMPLETED |};
      {| MediaAsset.id := "a2"; MediaAsset.corruptionReportId := Some "r1";
         MediaAsset.uploadStatus := UploadStatus.PENDING |} ]
    [] [] draws oracle.

Definition triageJob (reportId department : string) : Job.t ReportTriageJobData.t :=
  mkJob "triage-report" {| ReportTriageJobData.reportId := reportId;
                           ReportTriageJobData.department := department |} 0 2.

Definition urgentParkingReport : Report.t :=
  mkReport "r3" "Parking permits" "Slow handling of permits. URGENT!" "Transport"
         ReportStatus.SUBMITTED None (1700000000000 - 3600000).

(** An oracle that rejects every moderator lookup, every workload count and
    every enqueue, and accepts the other calls. *)
Definition moderatorOutage : list Call -> Call -> option string :=
  fun _ c =>
    match c with
    | UserFindMany _ => Some "connection lost"
    | ReportCount _ => Some "connection lost"
    | QueueAdd _ _ => Some "redis down"
    | _ => None
    end.

(** An oracle that rejects only the enqueues. *)
Definition queueOutage : list Call -> Call -> option string :=
  fun _ c => match c with QueueAdd _ _ => Some "redis down" | _ => None end.



(* ================================================================== *)
(** * Properties *)

(** ** The monad *)

Lemma bind_ok {A B} (m : M A) (k : A -> M B) w a w' :
  m w = (Ok a, w') -> bind m k w = k a w'.
Proof. intros E. unfold bind. now rewrite E. Qed.

Lemma bind_throw {A B} (m : M A) (k : A -> M B) w e w' :
  m w = (Throw e, w') -> bind m k w = (Throw e, w').
Proof. intros E. unfold bind. now rewrite E. Qed.

Lemma call_ok c w :
  fails w (trace w) c = None ->
  call c w = (Ok tt, set_trace w (trace w ++ [c])).
Proof. intros E. unfold call. now rewrite E. Qed.

Lemma call_fails c w message :
  fails w (trace w) c = Some message ->
  call c w = (Throw message, set_trace w (trace w ++ [c])).
Proof. intros E. unfold call. now rewrite E. Qed.

Lemma call_reliable c w :
  reliable w -> call c w = (Ok tt, set_trace w (trace w ++ [c])).
Proof. intros R. apply call_ok, R. Qed.

(** *** Frame rules *)

Lemma preserves_ret {X A} (f : World -> X) (a : A) : preserves f (ret a).
Proof. intros w r w' E. inversion E. reflexivity. Qed.

Lemma preserves_throw {X A} (f : World -> X) e : preserves f (@throw A e).
Proof. intros w r w' E. inversion E. reflexivity. Qed.

Lemma preserves_gets {X A} (f : World -> X) (g : World -> A) :
  preserves f (gets g).
Proof. intros w r w' E. inversion E. reflexivity. Qed.

Lemma preserves_modify {X} (f : World -> X) (g : World -> World) :
  (forall w, f (g w) = f w) -> preserves f (modify g).
Proof. intros F w r w' E. inversion E. apply F. Qed.

Lemma preserves_bind {X A B} (f : World -> X) (m : M A) (k : A -> M B) :
  preserves f m -> (forall a, preserves f (k a)) -> preserves f (bind m k).
Proof.
  intros Pm Pk w r w' E. unfold bind in E.
  destruct (m w) as [[a | e] w1] eqn:Em.
  - rewrite (Pk a _ _ _ E). eapply Pm; eauto.
  - inversion E; subst. eapply Pm; eauto.
Qed.

Lemma preserves_tryCatch {X A} (f : World -> X) (m : M A) (h : string -> M A) :
  preserves f m -> (forall e, preserves f (h e)) -> preserves f (tryCatch m h).
Proof.
  intros Pm Ph w r w' E. unfold tryCatch in E.
  destruct (m w) as [[a | e] w1] eqn:Em.
  - inversion E; subst. eapply Pm; eauto.
  - rewrite (Ph e _ _ _ E). eapply Pm; eauto.
Qed.

Lemma preserves_forEach {X A} (f : World -> X) (xs : list A) (body : A -> M unit) :
  (forall x, preserves f (body x)) -> preserves f (forEach xs body).
Proof.
  intros Pb. induction xs as [| x rest IH]; simpl.
  - apply preserves_ret.
  - apply preserves_bind; auto.
Qed.

Lemma preserves_mapM {X A B} (f : World -> X) (g : A -> M B) (xs : list A) :
  (forall x, preserves f (g x)) -> preserves f (mapM g xs).
Proof.
  intros Pg. induction xs as [| x rest IH]; simpl.
  - apply preserves_ret.
  - apply preserves_bind; auto. intros y.
    apply preserves_bind; auto. intros ys. apply preserves_ret.
Qed.

Lemma preserves_call {X} (f : World -> X) c :
  (forall w t, f (set_trace w t) = f w) -> preserves f (call c).
Proof.
  intros F w r w' E. unfold call in E.
  destruct (fails w (trace w) c); inversion E; apply F.
Qed.

Lemma preserves_note {X} (f : World -> X) c :
  (forall w t, f (set_trace w t) = f w) -> preserves f (note c).
Proof. intros F. apply preserves_modify. intros w. apply F. Qed.

Lemma preserves_Math_random {X} (f : World -> X) :
  (forall w v, f (set_random w v) = f w) -> preserves f Math_random.
Proof. intros F w r w' E. unfold Math_random in E. inversion E. apply F. Qed.

(** One step of a frame proof, by the shape of the handler. *)
Ltac frame_step :=
  lazymatch goal with
  | |- preserves _ (bind _ _) => apply preserves_bind; [| intro]
  | |- preserves _ (tryCatch _ _) => apply preserves_tryCatch; [| intro]
  | |- preserves _ (forEach _ _) => apply preserves_forEach; intro
  | |- preserves _ (mapM _ _) => apply preserves_mapM; intro
  | |- preserves _ (ret _) => apply preserves_ret
  | |- preserves _ (throw _) => apply preserves_throw
  | |- preserves _ (gets _) => apply preserves_gets
  | |- preserves _ Date_now => apply preserves_gets
  | |- preserves _ (modify _) => apply preserves_modify; intros; reflexivity
  | |- preserves _ (call _) => apply preserves_call; intros; reflexivity
  | |- preserves _ (note _) => apply preserves_note; intros; reflexivity
  | |- preserves _ Math_random =>
      apply preserves_Math_random; intros; reflexivity
  | |- preserves _ (match ?x with _ => _ end) => destruct x
  end.

Ltac frame := repeat frame_step.

Lemma fails_notificationQueue_add name data :
  preserves fails (notificationQueue_add name data).
Proof. unfold notificationQueue_add. frame. Qed.

Lemma waiting_fold_add js q :
  Queue.waiting (fold_left Queue.add js q) = (Queue.waiting q ++ js)%list.
Proof.
  revert q. induction js as [| j js IH]; intros q; simpl.
  - now rewrite app_nil_r.
  - rewrite IH. simpl. now rewrite <- app_assoc.
Qed.

Lemma notificationQueue_add_reliable name data w :
  reliable w ->
  notificationQueue_add name data w =
    (Ok tt,
     set_notificationQueue
       (set_trace w (trace w ++ [QueueAdd QNotifications
                                   {| QJob.name := name; QJob.data := data |}]))
       (Queue.add (notificationQueue w)
                  {| QJob.name := name; QJob.data := data |})).
Proof.
  intros R. unfold notificationQueue_add.
  erewrite bind_ok by (apply call_reliable, R). reflexivity.
Qed.

(** Queueing one job per element of a list, when no call rejects. *)
Lemma forEach_add_reliable {A} (mk : Z -> A -> NotificationJobData.t) name :
  forall (xs : list A) (w : World),
    reliable w ->
    exists w',
      forEach xs (fun x => t <- Date_now ;; notificationQueue_add name (mk t x)) w
        = (Ok tt, w') /\
      fails w' = fails w /\ caseFollows w' = caseFollows w /\ now w' = now w /\
      Queue.waiting (notificationQueue w') =
        (Queue.waiting (notificationQueue w)
           ++ map (fun x => {| QJob.name := name; QJob.data := mk (now w) x |}) xs)%list.
Proof.
  induction xs as [| x rest IH]; intros w R; simpl.
  - exists w. repeat split; auto. now rewrite app_nil_r.
  - erewrite bind_ok; cycle 1.
    { erewrite bind_ok by reflexivity. apply notificationQueue_add_reliable, R. }
    match goal with |- context [forEach rest _ ?w1] =>
      destruct (IH w1) as (w' & E & Ff & Fc & Fn & Fq) end.
    { intros h c. apply R. }
    exists w'. rewrite E. repeat split; auto.
    rewrite Fq. simpl. now rewrite <- app_assoc.
Qed.

(* ================================================================== *)
(** ** Case sync *)

Lemma option_eqb_Z a b : option_eqb Z.eqb a b = true <-> a = b.
Proof.
  destruct a as [x |], b as [y |]; simpl; split; try congruence.
  - intros E. apply Z.eqb_eq in E. congruence.
  - intros E. inversion E. apply Z.eqb_refl.
Qed.

Lemma option_eqb_string a b : option_eqb String.eqb a b = true <-> a = b.
Proof.
  destruct a as [x |], b as [y |]; simpl; split; try congruence.
  - intros E. apply String.eqb_eq in E. congruence.
  - intros E. inversion E. apply String.eqb_refl.
Qed.

Lemma CaseStatus_eqb_eq a b : CaseStatus.eqb a b = true <-> a = b.
Proof. destruct a, b; simpl; split; congruence. Qed.

Lemma negb_true_not b (P : Prop) : (b = true <-> P) -> (negb b = true <-> ~ P).
Proof.
  destruct b; simpl; intros [H1 H2]; split; intros H.
  - discriminate.
  - exfalso. apply H, H1. reflexivity.
  - intros p. apply H2 in p. discriminate.
  - reflexivity.
Qed.

Lemma checkForSignificantUpdates_spec oldCase newCase :
  checkForSignificantUpdates oldCase newCase = true <-> fieldsDiffer oldCase newCase.
Proof.
  unfold checkForSignificantUpdates, fieldsDiffer.
  pose proof (negb_true_not (CaseStatus_eqb_eq (Case.status oldCase) (Case.status newCase))) as Hs.
  pose proof (negb_true_not (option_eqb_Z (Case.nextHearing oldCase) (Case.nextHearing newCase))) as Hn.
  pose proof (negb_true_not (option_eqb_string (Case.judge oldCase) (Case.judge newCase))) as Hj.
  pose proof (negb_true_not (String.eqb_eq (Case.court oldCase) (Case.court newCase))) as Hc.
  pose proof (negb_true_not (String.eqb_eq (Case.title oldCase) (Case.title newCase))) as Ht.
  destruct (negb (CaseStatus.eqb _ _)); [tauto |].
  destruct (negb (option_eqb Z.eqb _ _)); [tauto |].
  destruct (negb (option_eqb String.eqb _ _)); [tauto |].
  destruct (negb (String.eqb (Case.court _) _)); [tauto |].
  destruct (negb (String.eqb (Case.title _) _)); [tauto |].
  split; [congruence |].
  intros [H | [H | [H | [H | H]]]]; [apply Hs in H | apply Hn in H | apply Hj in H
                                    | apply Hc in H | apply Ht in H]; congruence.
Qed.

Section CaseSyncProperties.
Context {jsDate : JsDate}.
Variable service : CaseService.t.

Lemma prisma_caseFollow_findMany_reliable caseId w :
  reliable w ->
  prisma_caseFollow_findMany caseId w =
    (Ok (followersOf w caseId), set_trace w (trace w ++ [CaseFollowFindMany caseId])).
Proof.
  intros R. unfold prisma_caseFollow_findMany.
  erewrite bind_ok by (apply call_reliable, R). reflexivity.
Qed.

Lemma prisma_caseFollow_count_reliable caseId w :
  reliable w ->
  exists n, prisma_caseFollow_count caseId w =
    (Ok n, set_trace w (trace w ++ [CaseFollowCount caseId])).
Proof.
  intros R. unfold prisma_caseFollow_count.
  erewrite bind_ok by (apply call_reliable, R). eexists. reflexivity.
Qed.

(** C1. A case sync run on an existing case whose external fetch succeeds
    queues one case-update notification per follower of the case when one of
    status, nextHearing (by timestamp), judge, court, title differs between
    the stored record and the fetched snapshot, and queues nothing when the
    five fields are equal. *)
Theorem processCaseSync_notifies_iff_changed
    (job : Job.t CaseSyncJobData.t) (w w0 w1 : World)
    (caseRecord updatedCase : Case.t) :
  let caseId := CaseSyncJobData.caseId (Job.data job) in
  prisma_case_findUnique caseId w = (Ok (Some caseRecord), w0) ->
  CaseService.syncCaseFromExternalAPI service (Case.caseNumber caseRecord) w0
    = (Ok (Some updatedCase), w1) ->
  reliable w1 ->
  exists res w2,
    processCaseSync service job w = (Ok res, w2) /\
    (hasSignificantUpdate res = true <-> fieldsDiffer caseRecord updatedCase) /\
    (fieldsDiffer caseRecord updatedCase ->
       Queue.waiting (notificationQueue w2) =
         (Queue.waiting (notificationQueue w1)
            ++ map (fun follow =>
                      {| QJob.name := "send-notification";
                         QJob.data := caseUpdateNotification caseId updatedCase
                                        (now w1) follow |})
                   (followersOf w1 caseId))%list) /\
    (~ fieldsDiffer caseRecord updatedCase ->
       Queue.waiting (notificationQueue w2) = Queue.waiting (notificationQueue w1)).
Proof.
  intros caseId Hfind Hsync R.
  unfold processCaseSync, tryCatch. fold caseId.
  erewrite bind_ok by exact Hfind. cbv beta iota.
  erewrite bind_ok by exact Hsync. cbv beta iota.
  pose proof (checkForSignificantUpdates_spec caseRecord updatedCase) as Hspec.
  destruct (checkForSignificantUpdates caseRecord updatedCase) eqn:Hchk.
  - (* a significant update *)
    assert (Hd : fieldsDiffer caseRecord updatedCase) by (apply Hspec; reflexivity).
    set (jobs := map (fun follow =>
                  {| QJob.name := "send-notification";
                     QJob.data := caseUpdateNotification caseId updatedCase
                                    (now w1) follow |}) (followersOf w1 caseId)).
    assert (Hblock : exists w2,
      (followers <- prisma_caseFollow_findMany caseId ;;
       if (0 <? List.length followers)%nat then
         forEach followers (fun follow =>
           t <- Date_now ;;
           notificationQueue_add "send-notification"
             (caseUpdateNotification caseId updatedCase t follow))
       else ret tt) w1 = (Ok tt, w2) /\
      fails w2 = fails w1 /\
      Queue.waiting (notificationQueue w2) =
        (Queue.waiting (notificationQueue w1) ++ jobs)%list).
    { erewrite bind_ok by (apply prisma_caseFollow_findMany_reliable, R).
      set (w1' := set_trace w1 (trace w1 ++ [CaseFollowFindMany caseId])).
      assert (R' : reliable w1') by (intros h c; apply R).
      destruct (0 <? List.length (followersOf w1 caseId))%nat eqn:Hlen.
      - destruct (forEach_add_reliable
                    (fun t follow => caseUpdateNotification caseId updatedCase t follow)
                    "send-notification" (followersOf w1 caseId) R')
          as (w2 & E & Ff & Fc & Fn & Fq).
        exists w2. split; [exact E |]. split; [exact Ff | exact Fq].
      - exists w1'. split; [reflexivity |]. split; [reflexivity |].
        apply Nat.ltb_ge in Hlen. unfold jobs.
        destruct (followersOf w1 caseId); simpl in *; [| lia].
        now rewrite app_nil_r. }
    destruct Hblock as (w2 & E & Ff & Fq).
    erewrite bind_ok by exact E.
    assert (R2 : reliable w2) by (intros h c; rewrite Ff; apply R).
    destruct (prisma_caseFollow_count_reliable caseId R2) as (n & En).
    erewrite bind_ok; cycle 1.
    { erewrite bind_ok by exact En. reflexivity. }
    eexists. eexists. split; [reflexivity |]. simpl.
    split; [tauto |]. split; [| tauto]. intros _. exact Fq.
  - (* the five fields are equal *)
    assert (Hd : ~ fieldsDiffer caseRecord updatedCase).
    { intros H. apply Hspec in H. congruence. }
    erewrite bind_ok by reflexivity.
    erewrite bind_ok by reflexivity.
    eexists. eexists. split; [reflexivity |]. simpl.
    split; [split; [congruence | tauto] |]. split; [tauto | reflexivity].
Qed.

End CaseSyncProperties.

Lemma processCaseSync_notifies_iff_changed_witness :
  exists res w2,
    processCaseSync caseService (syncJob "c1") syncWorld = (Ok res, w2) /\
    hasSignificantUpdate res = true /\
    map (fun j => NotificationJobData.userId (QJob.data j))
        (Queue.waiting (notificationQueue w2)) = ["u1"; "u2"].
Proof.
  destruct (@processCaseSync_notifies_iff_changed plainDates caseService
              (syncJob "c1") syncWorld
              (snd (prisma_case_findUnique "c1" syncWorld))
              (snd (syncCaseFromExternalAPI "CN-1"
                      (snd (prisma_case_findUnique "c1" syncWorld))))
              (storedCase "c1" "CN-1" "State v. Rao" None)
              (syncedCase "c1" "CN-1"))
    as (res & w2 & E & Hiff & Hyes & _).
  - reflexivity.
  - reflexivity.
  - intros h c. reflexivity.
  - exists res, w2. split; [exact E |].
    assert (D : fieldsDiffer (storedCase "c1" "CN-1" "State v. Rao" None)
                             (syncedCase "c1" "CN-1")).
    { right. left. discriminate. }
    split; [apply Hiff, D |].
    rewrite (Hyes D). reflexivity.
Defined.

(* ================================================================== *)
(** ** Batch case sync *)

Section BatchProperties.
Context {jsDate : JsDate}.
Variable service : CaseService.t.

Lemma syncedInTurn_length caseIds w outcomes w' :
  syncedInTurn service caseIds w outcomes w' ->
  List.length outcomes = List.length caseIds.
Proof. induction 1; simpl; congruence. Qed.

Lemma batchErrors_length {A} (caseIds : list string) (rs : list (Result A)) :
  List.length rs = List.length caseIds ->
  List.length (batchErrors caseIds rs)
    = List.length (filter (fun r => negb (isOk r)) rs).
Proof.
  revert rs. induction caseIds as [| c ids IH]; intros [| [a | e] rs] L;
    simpl in *; try discriminate; auto.
Qed.

Lemma filter_isOk_length {A} (rs : list (Result A)) :
  (List.length (filter isOk rs)
     + List.length (filter (fun r => negb (isOk r)) rs))%nat = List.length rs.
Proof. induction rs as [| [a | e] rs IH]; simpl; lia. Qed.

(** The loop from any intermediate [results]. *)
Lemma batchLoop_spec caseIds :
  forall results w,
  exists outcomes w',
    syncedInTurn service caseIds w outcomes w' /\
    batchLoop service caseIds results w =
      (Ok {| successful :=
               (successful results + List.length (filter isOk outcomes))%nat;
             failed :=
               (failed results
                  + List.length (filter (fun r => negb (isOk r)) outcomes))%nat;
             errors := (errors results ++ batchErrors caseIds outcomes)%list |},
       w').
Proof.
  induction caseIds as [| caseId rest IH]; intros results w.
  - exists [], w. split; [constructor |]. simpl. unfold ret.
    rewrite !Nat.add_0_r, app_nil_r. now destruct results.
  - destruct (processCaseSync service (batchItemJob caseId) w) as [r w1] eqn:E.
    cbn [batchLoop]. unfold bind at 1, tryCatch. unfold bind at 1. rewrite E.
    destruct r as [res | message]; unfold ret at 1; cbv beta iota.
    + destruct (IH {| successful := S (successful results);
                      failed := failed results;
                      errors := errors results |} w1)
        as (outcomes & w2 & S & L).
      exists (Ok res :: outcomes), w2. split; [econstructor; eauto |].
      rewrite L. cbn [successful failed errors filter isOk negb List.length batchErrors].
      do 3 f_equal. lia.
    + destruct (IH {| successful := successful results;
                      failed := S (failed results);
                      errors := push (errors results)
                                  ("Case " ++ caseId ++ ": " ++ message) |} w1)
        as (outcomes & w2 & S & L).
      exists (Throw message :: outcomes), w2. split; [econstructor; eauto |].
      rewrite L. cbn [successful failed errors filter isOk negb List.length batchErrors].
      unfold push. rewrite <- app_assoc. cbn [app].
      do 3 f_equal. lia.
Qed.

(** C2. For every list of case ids the batch returns; every case of the
    list is synced in turn, whatever happened to the cases before it; the
    successful and failed counts add up to the length of the list, and each
    failed case adds one to [failed] and one entry to [errors]. *)
Theorem processBatchCaseSync_counts (job : Job.t BatchCaseSyncJobData.t) (w : World) :
  let caseIds := BatchCaseSyncJobData.caseIds (Job.data job) in
  exists outcomes results w',
    syncedInTurn service caseIds w outcomes w' /\
    processBatchCaseSync service job w = (Ok results, w') /\
    successful results = List.length (filter isOk outcomes) /\
    failed results = List.length (filter (fun r => negb (isOk r)) outcomes) /\
    errors results = batchErrors caseIds outcomes /\
    List.length (errors results) = failed results /\
    (successful results + failed results)%nat = List.length caseIds.
Proof.
  intros caseIds.
  destruct (batchLoop_spec caseIds {| successful := 0; failed := 0; errors := [] |} w)
    as (outcomes & w' & S & L).
  pose proof (syncedInTurn_length S) as Len.
  eexists outcomes, _, w'. split; [exact S |].
  unfold processBatchCaseSync, tryCatch. fold caseIds. rewrite L.
  split; [reflexivity |]. simpl.
  repeat split.
  - now apply batchErrors_length.
  - rewrite <- Len. apply filter_isOk_length.
Qed.

End BatchProperties.

(** A batch over a stored case, a missing case and another stored case: the
    failure in the middle is counted and reported, the third case is synced. *)
Example processBatchCaseSync_example :
  fst (processBatchCaseSync caseService (batchJob ["c1"; "nope"; "c2"]) syncWorld)
  = Ok {| successful := 2; failed := 1;
          errors := ["Case nope: Case nope not found"] |}.
Proof. reflexivity. Qed.

(* ================================================================== *)
(** ** SOS dispatch *)



Lemma passes_S rs k : passes rs (S k) = passes (tl (tl rs)) k.
Proof.
  unfold passes, outcomeDraw. f_equal.
  replace (2 * S k + 1)%nat with (S (S (2 * k + 1))) by lia.
  destruct rs as [| a [| b rs]]; simpl; auto; destruct (k + (k + 0) + 1)%nat; auto.
Qed.

Lemma simulateEmergencyServiceCall_run service data w :
  simulateEmergencyServiceCall service data w =
    ((if passes (random w) 0 then Ok tt
      else Throw ("Failed to notify " ++ service)),
     set_random
       (set_trace (set_random w (tl (random w)))
                  (trace w ++ [EmergencyService service]))
       (tl (tl (random w)))).
Proof.
  unfold simulateEmergencyServiceCall, passes, outcomeDraw.
  unfold bind, Math_random, note, modify. simpl.
  replace (nth 1 (random w) 0%Q) with (hd 0%Q (tl (random w)))
    by (destruct (random w) as [| a [| b rs]]; reflexivity).
  destruct (Qlt_bool (hd 0%Q (tl (random w))) c0_95); reflexivity.
Qed.

(** The calls of the loop over [services]: all pass, or the first failing
    one ends the loop. *)
Lemma forEach_services data services :
  forall w,
  exists r w',
    forEach services (fun s => simulateEmergencyServiceCall s data) w = (r, w') /\
    fails w' = fails w /\ sosIncidents w' = sosIncidents w /\ now w' = now w /\
    ((r = Ok tt /\
      (forall k, (k < List.length services)%nat -> passes (random w) k = true) /\
      trace w' = (trace w ++ map EmergencyService services)%list)
     \/
     (exists k s,
        nth_error services k = Some s /\
        passes (random w) k = false /\
        (forall i, (i < k)%nat -> passes (random w) i = true) /\
        r = Throw ("Failed to notify " ++ s) /\
        trace w' = (trace w ++ map EmergencyService (firstn (S k) services))%list)).
Proof.
  induction services as [| s rest IH]; intros w.
  - exists (Ok tt), w. simpl. repeat split; auto. left.
    repeat split; [intros k Hk; inversion Hk | now rewrite app_nil_r].
  - cbn [forEach]. unfold bind at 1. rewrite simulateEmergencyServiceCall_run.
    destruct (passes (random w) 0) eqn:P0.
    + match goal with |- context [forEach rest _ ?w1] =>
        destruct (IH w1) as (r & w' & E & Ff & Fi & Fn & H) end.
      exists r, w'. rewrite E. simpl in Ff, Fi, Fn. repeat split; auto.
      destruct H as [(Hr & Hall & Ht) | (k & s' & Hk & Hf & Hlt & Hr & Ht)].
      * left. repeat split; auto.
        -- intros [| k] Hk; [exact P0 |]. rewrite passes_S. apply Hall.
           simpl in Hk. lia.
        -- rewrite Ht. simpl. now rewrite <- app_assoc.
      * right. exists (S k), s'. repeat split; auto.
        -- now rewrite passes_S.
        -- intros [| i] Hi; [exact P0 |]. rewrite passes_S. apply Hlt. lia.
        -- rewrite Ht. simpl. now rewrite <- app_assoc.
    + eexists. eexists. split; [reflexivity |]. simpl. repeat split; auto.
      right. exists 0%nat, s. repeat split; auto. intros i Hi. inversion Hi.
Qed.


Lemma find_map_update {A} (p : A -> bool) (upd : A -> A) (l : list A) x :
  (forall y, p (upd y) = p y) ->
  find p l = Some x ->
  find p (map (fun y => if p y then upd y else y) l) = Some (upd x).
Proof.
  intros Hp. induction l as [| y l IH]; simpl; [discriminate |].
  destruct (p y) eqn:Py.
  - intros E. inversion E; subst. now rewrite Hp, Py.
  - rewrite Py. exact IH.
Qed.

Lemma find_existsb {A} (p : A -> bool) (l : list A) x :
  find p l = Some x -> existsb p l = true.
Proof.
  induction l as [| y l IH]; simpl; [discriminate |].
  destruct (p y); auto.
Qed.

(** An update of an incident that exists, when the call is not rejected. *)
Lemma prisma_sosIncident_update_ok id st t w s0 :
  fails w (trace w) (SosIncidentUpdate id st) = None ->
  sosStatusOf w id = Some s0 ->
  exists w',
    prisma_sosIncident_update id st t w = (Ok tt, w') /\
    sosStatusOf w' id = Some st /\ fails w' = fails w.
Proof.
  intros F Hs. unfold sosStatusOf in Hs.
  destruct (find (fun i => String.eqb (SosIncident.id i) id) (sosIncidents w))
    as [x |] eqn:Hf; [| discriminate].
  unfold prisma_sosIncident_update.
  erewrite bind_ok by (apply call_ok, F).
  erewrite bind_ok by reflexivity. cbn [sosIncidents set_trace].
  rewrite (find_existsb _ _ Hf).
  eexists. split; [reflexivity |]. split; [| reflexivity].
  unfold sosStatusOf. cbn [sosIncidents set_sosIncidents set_trace].
  erewrite (find_map_update (fun i => String.eqb (SosIncident.id i) id)
              (fun i => {| SosIncident.id := SosIncident.id i;
                           SosIncident.userId := SosIncident.userId i;
                           SosIncident.status := st;
                           SosIncident.updatedAt := t |})); eauto.
Qed.


Lemma processSosDispatch_unfold job :
  processSosDispatch job =
  tryCatch
    (forEach (documentedServices (SosDispatchJobData.priority (Job.data job)))
       (fun service => simulateEmergencyServiceCall service (Job.data job)) ;;;
     t <- Date_now ;;
     prisma_sosIncident_update (SosDispatchJobData.incidentId (Job.data job))
       SosStatus.ACKNOWLEDGED t ;;;
     ret {| sos_success := true;
            servicesNotified :=
              documentedServices (SosDispatchJobData.priority (Job.data job)) |})
    (fun error =>
     t <- Date_now ;;
     prisma_sosIncident_update (SosDispatchJobData.incidentId (Job.data job))
       SosStatus.PENDING t ;;;
     throw error).
Proof.
  unfold processSosDispatch.
  destruct (SosDispatchJobData.priority (Job.data job)); reflexivity.
Qed.


(** A HIGH dispatch whose three calls succeed reaches the three services. *)
Example processSosDispatch_high :
  let '(r, w') := processSosDispatch (mkJob "dispatch-sos" (sosData "inc1" SosPriority.HIGH) 0 3)
                    (sosWorld SosStatus.PENDING []) in
  r = Ok {| sos_success := true;
            servicesNotified := ["Police"; "Medical"; "Fire Department"] |} /\
  servicesCalled (trace w') = ["Police"; "Medical"; "Fire Department"] /\
  sosStatusOf w' "inc1" = Some SosStatus.ACKNOWLEDGED.
Proof. vm_compute. repeat split. Qed.


(** C6, as amended. Whatever the status of the incident was and whichever
    attempt this is: when every service call succeeds the job returns and
    the incident is ACKNOWLEDGED; when a service call fails the job throws
    and the incident is PENDING.  (The database is taken to answer.) *)
Theorem processSosDispatch_status
    (job : Job.t SosDispatchJobData.t) (w : World) (s0 : SosStatus.t) :
  let id := SosDispatchJobData.incidentId (Job.data job) in
  let expected := documentedServices (SosDispatchJobData.priority (Job.data job)) in
  reliable w ->
  sosStatusOf w id = Some s0 ->
  exists r w',
    processSosDispatch job w = (r, w') /\
    ((forall k, (k < List.length expected)%nat -> passes (random w) k = true) ->
       (exists res, r = Ok res) /\ sosStatusOf w' id = Some SosStatus.ACKNOWLEDGED) /\
    (forall k, (k < List.length expected)%nat -> passes (random w) k = false ->
       (exists e, r = Throw e) /\ sosStatusOf w' id = Some SosStatus.PENDING).
Proof.
  intros id expected R Hs. rewrite processSosDispatch_unfold.
  fold expected. fold id.
  destruct (forEach_services (Job.data job) expected w)
    as (r0 & w1 & E & Ff & Fi & Fn & H).
  assert (Hs1 : sosStatusOf w1 id = Some s0) by (unfold sosStatusOf; now rewrite Fi).
  assert (R1 : reliable w1) by (intros h c; rewrite Ff; apply R).
  destruct H as [(Hr & Hall & Ht) | (k & s & Hk & Hf & Hlt & Hr & Ht)]; subst r0.
  - destruct (prisma_sosIncident_update_ok id SosStatus.ACKNOWLEDGED (now w1) w1
                (R1 _ _) Hs1) as (w2 & Eu & Hst & _).
    unfold tryCatch. erewrite bind_ok by exact E.
    erewrite bind_ok by reflexivity. erewrite bind_ok by exact Eu.
    eexists. eexists. split; [reflexivity |]. split.
    + intros _. split; [eexists; reflexivity | exact Hst].
    + intros k Hk Hfail. rewrite Hall in Hfail by assumption. discriminate.
  - destruct (prisma_sosIncident_update_ok id SosStatus.PENDING (now w1) w1
                (R1 _ _) Hs1) as (w2 & Eu & Hst & _).
    unfold tryCatch. erewrite bind_throw by exact E.
    erewrite bind_ok by reflexivity. erewrite bind_ok by exact Eu.
    eexists. eexists. split; [reflexivity |]. split.
    + intros Hall. rewrite Hall in Hf; [discriminate |].
      apply nth_error_Some. congruence.
    + intros _ _ _. split; [eexists; reflexivity | exact Hst].
Qed.

Lemma processSosDispatch_status_witness :
  exists r w',
    processSosDispatch retriedSosJob (sosWorld SosStatus.ACKNOWLEDGED failingDraws)
      = (r, w') /\
    (exists e, r = Throw e) /\ sosStatusOf w' "inc1" = Some SosStatus.PENDING.
Proof.
  destruct (@processSosDispatch_status retriedSosJob
              (sosWorld SosStatus.ACKNOWLEDGED failingDraws) SosStatus.ACKNOWLEDGED)
    as (r & w' & E & _ & Hfail).
  - intros h c. reflexivity.
  - reflexivity.
  - exists r, w'. split; [exact E |].
    apply (Hfail 0%nat); [simpl; lia | reflexivity].
Defined.

(** C6, as stated, fails: on the second of three attempts, a failed service
    call puts an incident that was ACKNOWLEDGED back to PENDING although the
    retries are not exhausted. *)
Lemma processSosDispatch_reverts_before_exhaustion :
  ~ (forall (job : Job.t SosDispatchJobData.t) (w w' : World) (e : string),
       let id := SosDispatchJobData.incidentId (Job.data job) in
       processSosDispatch job w = (Throw e, w') ->
       sosStatusOf w id <> Some SosStatus.PENDING ->
       sosStatusOf w' id = Some SosStatus.PENDING ->
       retriesExhausted job = true).
Proof.
  intros H.
  specialize (H retriedSosJob (sosWorld SosStatus.ACKNOWLEDGED failingDraws)
                (snd (processSosDispatch retriedSosJob
                        (sosWorld SosStatus.ACKNOWLEDGED failingDraws)))
                "Failed to notify Police").
  assert (C : retriesExhausted retriedSosJob = true).
  { apply H; [reflexivity | discriminate | reflexivity]. }
  discriminate C.
Qed.

(** A successful dispatch also moves an incident back: RESOLVED becomes
    ACKNOWLEDGED. *)
Example processSosDispatch_overwrites_resolved :
  let w' := snd (processSosDispatch (mkJob "dispatch-sos" (sosData "inc1" SosPriority.LOW) 0 3)
                   (sosWorld SosStatus.RESOLVED [])) in
  sosStatusOf w' "inc1" = Some SosStatus.ACKNOWLEDGED.
Proof. reflexivity. Qed.

(* ================================================================== *)
(** ** Health check *)

Lemma queue_get_reliable q state w :
  reliable w ->
  exists w',
    queue_get q state w =
      (Ok match state with
          | Waiting => Queue.waiting (queueOf q w)
          | Active => Queue.active (queueOf q w)
          | Completed => Queue.completed (queueOf q w)
          | Failed => Queue.failed (queueOf q w)
          | Delayed => Queue.delayed (queueOf q w)
          end, w') /\
    fails w' = fails w /\ (forall q', queueOf q' w' = queueOf q' w).
Proof.
  intros R. unfold queue_get.
  erewrite bind_ok by (apply call_reliable, R).
  eexists. split; [unfold gets; destruct state, q; reflexivity |].
  split; [reflexivity |]. intros []; reflexivity.
Qed.

Lemma queueStats_reliable q w :
  reliable w ->
  exists w',
    queueStats q w = (Ok (statsOf w q), w') /\
    fails w' = fails w /\ (forall q', queueOf q' w' = queueOf q' w).
Proof.
  intros R. unfold queueStats.
  erewrite bind_ok by reflexivity.
  destruct (queue_get_reliable q Waiting R) as (w1 & E1 & F1 & Q1).
  erewrite bind_ok by exact E1.
  assert (R1 : reliable w1) by (intros h c; rewrite F1; apply R).
  destruct (queue_get_reliable q Active R1) as (w2 & E2 & F2 & Q2).
  erewrite bind_ok by exact E2.
  assert (R2 : reliable w2) by (intros h c; rewrite F2; apply R1).
  destruct (queue_get_reliable q Completed R2) as (w3 & E3 & F3 & Q3).
  erewrite bind_ok by exact E3.
  assert (R3 : reliable w3) by (intros h c; rewrite F3; apply R2).
  destruct (queue_get_reliable q Failed R3) as (w4 & E4 & F4 & Q4).
  erewrite bind_ok by exact E4.
  assert (R4 : reliable w4) by (intros h c; rewrite F4; apply R3).
  destruct (queue_get_reliable q Delayed R4) as (w5 & E5 & F5 & Q5).
  erewrite bind_ok by exact E5.
  exists w5. split.
  - unfold ret, statsOf. rewrite !Q4, !Q3, !Q2, !Q1. reflexivity.
  - split; [congruence |]. intros q'. now rewrite Q5, Q4, Q3, Q2, Q1.
Qed.

Lemma mapM_queueStats_reliable qs :
  forall w, reliable w ->
  exists w',
    mapM queueStats qs w = (Ok (map (statsOf w) qs), w') /\
    workers w' = workers w.
Proof.
  induction qs as [| q qs IH]; intros w R; cbn [mapM map].
  - exists w. split; reflexivity.
  - destruct (queueStats_reliable q R) as (w1 & E1 & F1 & Q1).
    erewrite bind_ok by exact E1.
    assert (R1 : reliable w1) by (intros h c; rewrite F1; apply R).
    destruct (IH w1 R1) as (w2 & E2 & W2).
    erewrite bind_ok by exact E2.
    exists w2. split.
    + unfold ret. do 3 f_equal. apply map_ext. intros q'.
      unfold statsOf. now rewrite Q1.
    + rewrite W2. revert E1. apply (@preserves_bind _ _ _ workers);
        [apply preserves_gets | intro].
      unfold queue_get. frame.
Qed.

Lemma workersRunning_forallb ws :
  forallb (fun s => String.eqb (ws_status s) "running") (map statusOfWorker ws)
  = forallb Worker.isRunning ws.
Proof.
  induction ws as [| x ws IH]; simpl; [reflexivity |].
  rewrite IH. destruct (Worker.isRunning x); reflexivity.
Qed.

Lemma allQueues q : In q [QSosDispatch; QNotifications; QCaseSync; QReportTriage].
Proof. destruct q; simpl; auto. Qed.

(** C7. The health check answers [unhealthy] exactly when a worker is not
    running; with all workers running, [degraded] exactly when a queue has
    more than ten failed jobs; otherwise [healthy]; and it reports the
    running state of each worker. *)
Theorem checkJobSystemHealth_status (w : World) :
  reliable w ->
  exists h w',
    checkJobSystemHealth w = (Ok h, w') /\
    (h_status h = unhealthy <->
       exists worker, In worker (workers w) /\ Worker.isRunning worker = false) /\
    (h_status h = degraded <->
       (forall worker, In worker (workers w) -> Worker.isRunning worker = true) /\
       exists q, (10 < List.length (Queue.failed (queueOf q w)))%nat) /\
    (h_status h = healthy <->
       (forall worker, In worker (workers w) -> Worker.isRunning worker = true) /\
       forall q, (List.length (Queue.failed (queueOf q w)) <= 10)%nat) /\
    h_workers h = map statusOfWorker (workers w).
Proof.
  intros R. unfold checkJobSystemHealth, getQueueStats.
  erewrite bind_ok by reflexivity.
  destruct (mapM_queueStats_reliable
              [QSosDispatch; QNotifications; QCaseSync; QReportTriage] R)
    as (w' & E & _).
  erewrite bind_ok by exact E.
  eexists. exists w'. split; [reflexivity |].
  cbn [h_status h_workers].
  change (map (fun worker => {| ws_name := Worker.name worker;
                                ws_status := if Worker.isRunning worker
                                             then "running" else "stopped" |})
              (workers w)) with (map statusOfWorker (workers w)).
  rewrite workersRunning_forallb.
  set (qs := [QSosDispatch; QNotifications; QCaseSync; QReportTriage]).
  assert (Hall : forallb Worker.isRunning (workers w) = true <->
                 forall worker, In worker (workers w) -> Worker.isRunning worker = true)
    by apply forallb_forall.
  assert (Hex : existsb (fun q => (10 <? q_failed q)%nat) (map (statsOf w) qs) = true <->
                exists q, (10 < List.length (Queue.failed (queueOf q w)))%nat).
  { rewrite existsb_exists. split.
    - intros (x & Hin & Hx). apply in_map_iff in Hin.
      destruct Hin as (q & <- & _). exists q. now apply Nat.ltb_lt in Hx.
    - intros (q & Hq). exists (statsOf w q). split.
      + apply in_map, allQueues.
      + now apply Nat.ltb_lt. }
  destruct (forallb Worker.isRunning (workers w)) eqn:Hw; cbn [negb].
  - assert (Hrun : forall worker, In worker (workers w) -> Worker.isRunning worker = true)
      by (apply Hall; reflexivity).
    destruct (existsb _ (map (statsOf w) qs)) eqn:Hq.
    + assert (Hsome : exists q, (10 < List.length (Queue.failed (queueOf q w)))%nat)
        by (apply Hex; reflexivity).
      repeat split; try discriminate; auto.
      * intros (worker & Hin & Hstop). rewrite Hrun in Hstop by assumption. discriminate.
      * intros (_ & Hle). destruct Hsome as (q & Hq'). specialize (Hle q). lia.
    + assert (Hnone : forall q, (List.length (Queue.failed (queueOf q w)) <= 10)%nat).
      { intros q. destruct (Nat.le_gt_cases (List.length (Queue.failed (queueOf q w))) 10)
          as [Hle | Hgt]; [exact Hle |].
        assert (C : false = true) by (apply Hex; exists q; exact Hgt). discriminate. }
      repeat split; try discriminate; auto.
      * intros (worker & Hin & Hstop). rewrite Hrun in Hstop by assumption. discriminate.
      * intros (_ & q & Hq'). specialize (Hnone q). lia.
  - assert (Hstop : exists worker, In worker (workers w) /\ Worker.isRunning worker = false).
    { clear - Hw. induction (workers w) as [| x ws IH]; simpl in *; [discriminate |].
      destruct (Worker.isRunning x) eqn:Hx.
      - destruct (IH Hw) as (y & Hin & Hy). exists y. auto.
      - exists x. auto. }
    repeat split; try discriminate; auto.
    + intros (Hrun & _). apply Hall in Hrun. discriminate.
    + intros (Hrun & _). apply Hall in Hrun. discriminate.
Qed.

Lemma checkJobSystemHealth_status_witness :
  exists h w', checkJobSystemHealth degradedWorld = (Ok h, w') /\ h_status h = degraded.
Proof.
  destruct (checkJobSystemHealth_status (w := degradedWorld))
    as (h & w' & E & _ & Hdeg & _).
  - intros tr c. reflexivity.
  - exists h, w'. split; [exact E |]. apply Hdeg. split.
    + intros worker Hin. simpl in Hin.
      destruct Hin as [<- | [<- | [<- | [<- | []]]]]; reflexivity.
    + exists QNotifications. simpl. lia.
Defined.

(* ================================================================== *)
(** ** Notification templates *)

Section NotificationProperties.
Context {jsDate : JsDate}.

Lemma not_in_table template :
  ~ In template templateTable ->
  String.eqb template "sos-status-update" = false /\
  String.eqb template "report-status-update" = false /\
  String.eqb template "case-update" = false.
Proof.
  intros H. repeat split; apply String.eqb_neq; intros ->; apply H; simpl; auto.
Qed.

Lemma generateEmailContent_unknown template data w :
  ~ In template templateTable ->
  generateEmailContent template data w = (Ok genericEmail, w).
Proof.
  intros H. destruct (not_in_table H) as (E1 & E2 & E3).
  unfold generateEmailContent, bind, Date_now, gets, ret.
  rewrite E1, E2, E3. reflexivity.
Qed.

Lemma generateSMSContent_unknown template data w :
  ~ In template templateTable ->
  generateSMSContent template data w = (Ok genericSMS, w).
Proof.
  intros H. destruct (not_in_table H) as (E1 & E2 & E3).
  unfold generateSMSContent, bind, Date_now, gets, ret.
  rewrite E1, E2, E3. reflexivity.
Qed.

Lemma high_priority_report_unknown : ~ In "high-priority-report" templateTable.
Proof. simpl. intros [H | [H | [H | []]]]; discriminate. Qed.

Lemma simulateEmailSend_trace content w :
  exists r w', simulateEmailSend content w = (r, w') /\
               trace w' = (trace w ++ [EmailSend content])%list.
Proof.
  unfold simulateEmailSend, bind, Math_random, note, modify. simpl.
  destruct (Qlt_bool _ c0_98); eexists; eexists; split; reflexivity.
Qed.

(** The jobs a loop of [add] calls leaves in the queue, whichever of the
    calls is rejected. *)
Lemma forEach_add_any {A} (mk : A -> NotificationJobData.t) name
    (P : QJob.t -> Prop) :
  (forall x, P {| QJob.name := name; QJob.data := mk x |}) ->
  forall (xs : list A) (w : World),
  exists r w' added,
    forEach xs (fun x => notificationQueue_add name (mk x)) w = (r, w') /\
    Queue.waiting (notificationQueue w')
      = (Queue.waiting (notificationQueue w) ++ added)%list /\
    Forall P added.
Proof.
  intros HP. induction xs as [| x rest IH]; intros w; cbn [forEach].
  - exists (Ok tt), w, []. repeat split; auto. now rewrite app_nil_r.
  - unfold bind at 1. unfold notificationQueue_add at 1.
    unfold bind at 1, call.
    destruct (fails w (trace w) _) as [message |].
    + eexists. eexists. exists []. split; [reflexivity |]. split; auto.
      simpl. now rewrite app_nil_r.
    + unfold modify.
      match goal with |- context [forEach rest _ ?w1] =>
        destruct (IH w1) as (r & w' & added & E & Hq & Hall) end.
      rewrite E. eexists. eexists.
      exists ({| QJob.name := name; QJob.data := mk x |} :: added).
      split; [reflexivity |]. split; [| constructor; auto].
      rewrite Hq. simpl. now rewrite <- app_assoc.
Qed.

Lemma queue_prisma_user_findMany roles :
  preserves notificationQueue (prisma_user_findMany roles).
Proof. unfold prisma_user_findMany. frame. Qed.

(** C8. A template name outside the table renders the generic email and the
    generic SMS.  'high-priority-report' is outside the table, it is the
    template of every job [notifyModerators] queues, and the notification
    job hands the generic email to the provider for each such job. *)
Theorem unknown_template_renders_generic :
  (forall template data w,
     ~ In template templateTable ->
     generateEmailContent template data w = (Ok genericEmail, w) /\
     generateSMSContent template data w = (Ok genericSMS, w)) /\
  ~ In "high-priority-report" templateTable /\
  (forall report triageResult w,
     exists w' added,
       notifyModerators report triageResult w = (Ok tt, w') /\
       Queue.waiting (notificationQueue w')
         = (Queue.waiting (notificationQueue w) ++ added)%list /\
       Forall (fun j =>
                 NotificationJobData.type (QJob.data j) = "email" /\
                 NotificationJobData.template (QJob.data j) = "high-priority-report")
              added) /\
  (forall (job : Job.t NotificationJobData.t) w,
     NotificationJobData.type (Job.data job) = "email" ->
     NotificationJobData.template (Job.data job) = "high-priority-report" ->
     exists r w',
       processNotification job w = (r, w') /\
       trace w' = (trace w ++ [EmailSend genericEmail])%list).
Proof.
  split; [| split; [| split]].
  - intros template data w H. split.
    + now apply generateEmailContent_unknown.
    + now apply generateSMSContent_unknown.
  - exact high_priority_report_unknown.
  - intros report triageResult w. unfold notifyModerators, tryCatch.
    destruct (prisma_user_findMany [UserRole.MODERATOR; UserRole.ADMIN] w)
      as [[moderators | e] w1] eqn:E.
    + erewrite bind_ok by exact E.
      destruct (forEach_add_any
                  (highPriorityReportNotification report triageResult)
                  "send-notification"
                  (fun j => NotificationJobData.type (QJob.data j) = "email" /\
                            NotificationJobData.template (QJob.data j)
                              = "high-priority-report")
                  (fun x => conj eq_refl eq_refl) moderators w1)
        as (r & w' & added & Ef & Hq & Hall).
      rewrite Ef. exists w', added.
      rewrite Hq, (queue_prisma_user_findMany _ _ E).
      split; [destruct r as [[] |]; reflexivity | auto].
    + erewrite bind_throw by exact E. exists w1, [].
      rewrite (queue_prisma_user_findMany _ _ E), app_nil_r.
      repeat split; auto.
  - intros job w Hty Htpl.
    unfold processNotification, tryCatch. rewrite Hty, Htpl.
    cbn [String.eqb Ascii.eqb Bool.eqb].
    unfold sendEmailNotification, tryCatch.
    unfold bind at 1. cbv beta.
    erewrite (bind_ok (generateEmailContent "high-priority-report" _))
      by (apply generateEmailContent_unknown, high_priority_report_unknown).
    destruct (simulateEmailSend_trace genericEmail w) as ([[] | e] & w' & E & T);
      rewrite E; eexists; eexists; (split; [reflexivity | exact T]).
Qed.

End NotificationProperties.

(** The email the notification job sends for a high-priority report. *)
Example high_priority_report_email :
  let job := mkJob "send-notification"
               (highPriorityReportNotification
                  {| Report.id := "r1"; Report.title := "Bribe";
                     Report.description := ""; Report.department := "Police";
                     Report.status := ReportStatus.SUBMITTED;
                     Report.assignedTo := None; Report.createdAt := 0;
                     Report.updatedAt := 0 |}
                  {| t_status := ReportStatus.INVESTIGATING; t_assignedTo := None;
                     t_priority := Priority.HIGH; t_reasoning := [] |}
                  (mkUser "m1" UserRole.MODERATOR)) 0 3 in
  trace (snd (processNotification job (mkWorld [] [] [] [] [] [] [] [] never)))
  = [EmailSend genericEmail].
Proof. reflexivity. Qed.

(* ================================================================== *)
(** ** Moderator assignment *)

(** *** The sort *)

Lemma insertByWorkload_perm x l : Permutation (insertByWorkload x l) (x :: l).
Proof.
  induction l as [| y l IH]; simpl; [apply Permutation_refl |].
  destruct (workload x <=? workload y)%nat; [apply Permutation_refl |].
  eapply perm_trans; [apply perm_skip, IH | apply perm_swap].
Qed.

Lemma sortByWorkload_perm l : Permutation (sortByWorkload l) l.
Proof.
  induction l as [| x l IH]; simpl; [constructor |].
  eapply perm_trans; [apply insertByWorkload_perm | now apply perm_skip].
Qed.

Lemma filter_perm {A} (p : A -> bool) l l' :
  Permutation l l' -> Permutation (filter p l) (filter p l').
Proof.
  induction 1; simpl.
  - constructor.
  - destruct (p x); auto.
  - destruct (p x), (p y); auto. apply perm_swap.
  - eapply perm_trans; eauto.
Qed.

(** The head of the sorted list is the first least-loaded entry. *)
Lemma sortByWorkload_head l :
  l <> [] ->
  exists m rest, sortByWorkload l = m :: rest /\ leastBusyFirst m l.
Proof.
  induction l as [| x l IH]; [congruence |]. intros _.
  destruct l as [| y l'].
  - exists x, []. split; [reflexivity |].
    exists [], []. repeat split; constructor.
  - destruct IH as (m & rest & Es & before & after & El & Hb & Ha); [congruence |].
    change (sortByWorkload (x :: y :: l'))
      with (insertByWorkload x (sortByWorkload (y :: l'))).
    rewrite Es. simpl.
    destruct (workload x <=? workload m)%nat eqn:Hle.
    + apply Nat.leb_le in Hle.
      exists x, (m :: rest). split; [reflexivity |].
      exists [], (y :: l'). repeat split; [constructor |].
      rewrite El. apply Forall_app. split.
      * eapply Forall_impl; [| exact Hb]. simpl. intros; lia.
      * constructor; [exact Hle |].
        eapply Forall_impl; [| exact Ha]. simpl. intros; lia.
    + apply Nat.leb_gt in Hle.
      exists m, (insertByWorkload x rest). split; [reflexivity |].
      exists (x :: before), after. repeat split; auto.
      simpl. now rewrite El.
Qed.

(** *** The random index *)


(** *** Numbers *)

Unset Implicit Arguments.

Lemma pow2_pos e : (0 < pow2 e)%Q.
Proof. apply Qpower_0_lt. reflexivity. Qed.

Lemma pow2_plus a b : (pow2 (a + b) == pow2 a * pow2 b)%Q.
Proof. apply Qpower_plus. discriminate. Qed.

Lemma pow2_le a b : a <= b -> (pow2 a <= pow2 b)%Q.
Proof. intros H. apply Qpower_le_compat_l; [exact H | discriminate]. Qed.


Lemma pow2_le_inv a b : (pow2 a <= pow2 b)%Q -> a <= b.
Proof. intros H. eapply Qpower_le_compat_l_inv; [exact H | reflexivity]. Qed.

Lemma pow2_Z k : 0 <= k -> (pow2 k == inject_Z (2 ^ k))%Q.
Proof. intros H. unfold pow2. rewrite Zpower_Qpower by exact H. reflexivity. Qed.

Lemma pow2_opp k : (pow2 (- k) * pow2 k == 1)%Q.
Proof.
  rewrite <- pow2_plus. replace (- k + k) with 0 by lia. reflexivity.
Qed.

(** The binade of a positive number. *)
Lemma binade_spec x :
  (0 < x)%Q -> (pow2 (binade x) <= x)%Q /\ (x < pow2 (binade x + 1))%Q.
Proof.
  intros Hx. destruct x as [a b]. 
  assert (Ha : 0 < a) by (unfold Qlt in Hx; simpl in Hx; lia).
  unfold binade. cbn [Qnum Qden].
  set (la := Z.log2 a). set (lb := Z.log2 (Z.pos b)).
  assert (Hla : 2 ^ la <= a < 2 ^ (la + 1)).
  { pose proof (Z.log2_spec a Ha). unfold la. replace (Z.log2 a + 1) with (Z.succ (Z.log2 a)) by lia. lia. }
  assert (Hlb : 2 ^ lb <= Z.pos b < 2 ^ (lb + 1)).
  { pose proof (Z.log2_spec (Z.pos b) ltac:(lia)). unfold lb.
    replace (Z.log2 (Z.pos b) + 1) with (Z.succ (Z.log2 (Z.pos b))) by lia. lia. }
  assert (Hla0 : 0 <= la) by apply Z.log2_nonneg.
  assert (Hlb0 : 0 <= lb) by apply Z.log2_nonneg.
  (* a/b in terms of powers *)
  assert (Hup : (a # b < pow2 (la - lb + 1))%Q).
  { replace (la - lb + 1) with ((la + 1) + - lb) by lia.
    rewrite pow2_plus.
    assert (E : (pow2 (la + 1) * pow2 (- lb) * pow2 lb == pow2 (la + 1))%Q).
    { rewrite <- Qmult_assoc, pow2_opp. ring. }
    apply (Qmult_lt_r _ _ (pow2 lb) (pow2_pos lb)).
    rewrite E. rewrite (pow2_Z lb Hlb0), (pow2_Z (la + 1)) by lia.
    unfold Qlt, Qmult, inject_Z. simpl. nia. }
  assert (Hlo : (pow2 (la - lb - 1) < a # b)%Q).
  { replace (la - lb - 1) with (la + - (lb + 1)) by lia.
    rewrite pow2_plus.
    assert (E : (pow2 la * pow2 (- (lb + 1)) * pow2 (lb + 1) == pow2 la)%Q).
    { rewrite <- Qmult_assoc, pow2_opp. ring. }
    apply (Qmult_lt_r _ _ (pow2 (lb + 1)) (pow2_pos (lb + 1))).
    rewrite E. rewrite (pow2_Z la Hla0), (pow2_Z (lb + 1)) by lia.
    unfold Qlt, Qmult, inject_Z. simpl. nia. }
  destruct (Qle_bool (pow2 (la - lb)) (a # b)) eqn:T.
  - apply Qle_bool_iff in T. split; [exact T | exact Hup].
  - assert (T' : ~ (pow2 (la - lb) <= a # b)%Q).
    { intros C. apply Qle_bool_iff in C. congruence. }
    apply Qnot_le_lt in T'.
    replace (la - lb - 1 + 1) with (la - lb) by lia.
    split; [apply Qlt_le_weak, Hlo | exact T'].
Qed.

Lemma roundHalfEven_bounds q :
  (inject_Z (Qfloor q) <= inject_Z (roundHalfEven q))%Q /\
  (inject_Z (roundHalfEven q) <= q + (1 # 2))%Q /\
  (q - (1 # 2) <= inject_Z (roundHalfEven q))%Q /\
  (roundHalfEven q <= Qfloor q + 1).
Proof.
  pose proof (Qfloor_le q) as Fl. pose proof (Qlt_floor q) as Fh.
  rewrite inject_Z_plus in Fh. change (inject_Z 1) with 1%Q in Fh.
  unfold roundHalfEven.
  destruct (q - inject_Z (Qfloor q) ?= 1 # 2)%Q eqn:C.
  - apply Qeq_alt in C.
    destruct (Z.even (Qfloor q)).
    + repeat split; try lra; lia.
    + rewrite inject_Z_plus. change (inject_Z 1) with 1%Q.
      repeat split; try lra; lia.
  - apply Qlt_alt in C. repeat split; try lra; lia.
  - apply Qgt_alt in C. rewrite inject_Z_plus. change (inject_Z 1) with 1%Q.
    repeat split; try lra; lia.
Qed.


Lemma roundHalfEven_le q k : (q <= inject_Z k)%Q -> roundHalfEven q <= k.
Proof.
  intros H. destruct (roundHalfEven_bounds q) as (_ & B & _ & _).
  assert (B' : (inject_Z (roundHalfEven q) < inject_Z (k + 1))%Q).
  { rewrite inject_Z_plus. change (inject_Z 1) with 1%Q. lra. }
  rewrite <- Zlt_Qlt in B'. lia.
Qed.

Lemma Qabs_of_pos x : (0 < x)%Q -> Qabs x = x.
Proof.
  intros H. destruct x as [a b]. unfold Qlt in H. simpl in H.
  unfold Qabs. f_equal. apply Z.abs_eq. lia.
Qed.

Lemma ulp64_pos x : (0 < ulp64 x)%Q.
Proof. apply pow2_pos. Qed.

Lemma round64_pos x :
  (0 < x)%Q -> round64 x = (inject_Z (roundHalfEven (x / ulp64 x)) * ulp64 x)%Q.
Proof.
  intros H. unfold round64.
  destruct (Qeq_bool x 0) eqn:E; [| reflexivity].
  apply Qeq_bool_iff in E. lra.
Qed.

(** Below [2^53] the integers are binary64 numbers, and rounding does not
    cross them. *)
Lemma ulp64_divides x :
  (0 < x)%Q -> (x < pow2 53)%Q ->
  exists k, 0 < k /\ (inject_Z k * ulp64 x == 1)%Q.
Proof.
  intros H0 H1. destruct (binade_spec x H0) as [Hb _].
  assert (Hlt : binade x < 53).
  { destruct (Z_lt_ge_dec (binade x) 53) as [L | G]; [exact L |].
    assert (pow2 53 <= pow2 (binade x))%Q by (apply pow2_le; lia). lra. }
  unfold ulp64. rewrite (Qabs_of_pos x) by exact H0.
  set (E := Z.max (binade x) (-1022)).
  assert (HE : E <= 52) by (unfold E; lia).
  exists (2 ^ (52 - E)). split; [apply Z.pow_pos_nonneg; lia |].
  rewrite <- pow2_Z by lia. rewrite <- pow2_plus.
  replace (52 - E + (E - 52)) with 0 by lia. reflexivity.
Qed.


Lemma round64_le_int x m :
  (0 < x)%Q -> (x < pow2 53)%Q -> (x <= inject_Z m)%Q ->
  (round64 x <= inject_Z m)%Q.
Proof.
  intros H0 H1 Hm. rewrite (round64_pos x H0).
  destruct (ulp64_divides x H0 H1) as (k & Hk & Ek).
  pose proof (ulp64_pos x) as Hu. set (u := ulp64 x) in *.
  assert (Hq : (x / u <= inject_Z (m * k))%Q).
  { apply Qle_shift_div_r; [exact Hu |]. rewrite inject_Z_mult.
    rewrite <- Qmult_assoc, Ek. lra. }
  apply roundHalfEven_le in Hq. rewrite Zle_Qle in Hq.
  rewrite inject_Z_mult in Hq.
  assert (Hm' : (inject_Z m == inject_Z m * inject_Z k * u)%Q).
  { rewrite <- Qmult_assoc, Ek. ring. }
  rewrite Hm'. apply Qmult_le_compat_r; [exact Hq | lra].
Qed.





Set Implicit Arguments.

(** *** The run of [findBestModerator] *)

Lemma prisma_user_findMany_moderators w :
  reliable w ->
  prisma_user_findMany [UserRole.MODERATOR] w =
    (Ok (activeModerators w),
     set_trace w (trace w ++ [UserFindMany [UserRole.MODERATOR]])).
Proof.
  intros R. unfold prisma_user_findMany.
  erewrite bind_ok by (apply call_reliable, R). reflexivity.
Qed.

Lemma prisma_corruptionReport_count_reliable m w :
  reliable w ->
  prisma_corruptionReport_count m w =
    (Ok (openReports w m), set_trace w (trace w ++ [ReportCount m])).
Proof.
  intros R. unfold prisma_corruptionReport_count.
  erewrite bind_ok by (apply call_reliable, R). reflexivity.
Qed.

Lemma mapM_workloads mods :
  forall w, reliable w ->
  exists w',
    mapM (fun moderator =>
            assignedReports <- prisma_corruptionReport_count (User.id moderator) ;;
            ret {| moderatorId := User.id moderator;
                   workload := assignedReports |}) mods w
      = (Ok (map (fun u => {| moderatorId := User.id u;
                              workload := openReports w (User.id u) |}) mods),
         w') /\
    fails w' = fails w /\ random w' = random w /\
    corruptionReports w' = corruptionReports w.
Proof.
  induction mods as [| u mods IH]; intros w R; cbn [mapM map].
  - exists w. repeat split; reflexivity.
  - erewrite bind_ok; cycle 1.
    { erewrite bind_ok by (apply prisma_corruptionReport_count_reliable, R).
      reflexivity. }
    destruct (IH (set_trace w (trace w ++ [ReportCount (User.id u)])))
      as (w' & E & Ff & Fr & Fc).
    { intros h c. apply R. }
    erewrite bind_ok by exact E.
    exists w'. repeat split; auto.
Qed.

Lemma moderatorIdAt_head m rest w :
  moderatorIdAt (m :: rest) 0 w = (Ok (moderatorId m), w).
Proof. reflexivity. Qed.

Lemma moderatorIdAt_in_range xs i w :
  0 <= i < Z.of_nat (List.length xs) ->
  exists m, nth_error xs (Z.to_nat i) = Some m /\
            moderatorIdAt xs i w = (Ok (moderatorId m), w).
Proof.
  intros Hi. unfold moderatorIdAt.
  destruct (i <? 0) eqn:Hneg; [apply Z.ltb_lt in Hneg; lia |].
  destruct (nth_error xs (Z.to_nat i)) as [m |] eqn:En.
  - exists m. split; reflexivity.
  - apply nth_error_None in En. lia.
Qed.

Lemma Priority_eqb_eq p q : Priority.eqb p q = true <-> p = q.
Proof. destruct p, q; unfold Priority.eqb; simpl; split; congruence. Qed.

Lemma moderatorIdAt_run xs i w r w' :
  moderatorIdAt xs i w = (r, w') ->
  w' = w /\
  forall m, 0 <= i -> nth_error xs (Z.to_nat i) = Some m -> r = Ok (moderatorId m).
Proof.
  unfold moderatorIdAt. intros E.
  destruct (i <? 0) eqn:Hneg.
  - inversion E. split; [reflexivity |]. intros m Hi.
    apply Z.ltb_lt in Hneg. lia.
  - destruct (nth_error xs (Z.to_nat i)) as [m0 |]; inversion E;
      (split; [reflexivity |]); intros m _ Hm; congruence.
Qed.


(** The run of [findBestModerator] when the database answers. *)
Lemma findBestModerator_run
    (department : string) (priority : Priority.t) (w : World) :
  reliable w ->
  let loads := workloadsOf w in
  let available := filter (fun m => (workload m <? 10)%nat) (sortByWorkload loads) in
  let n := List.length available in
  exists r w',
    findBestModerator department priority w = (Ok r, w') /\
    (activeModerators w = [] -> r = None) /\
    (activeModerators w <> [] -> priority = Priority.HIGH ->
       exists m, r = Some (moderatorId m) /\ leastBusyFirst m loads) /\
    (activeModerators w <> [] -> priority <> Priority.HIGH -> available <> [] ->
       random w' = tl (random w) /\
       forall m,
         0 <= randomIndexOf (nextRandom w) n ->
         nth_error available (Z.to_nat (randomIndexOf (nextRandom w) n)) = Some m ->
         r = Some (moderatorId m)) /\
    (activeModerators w <> [] -> priority <> Priority.HIGH -> available = [] ->
       exists m, r = Some (moderatorId m) /\ leastBusyFirst m loads) /\
    (forall m, In m available <-> In m loads /\ (workload m < 10)%nat) /\
    n = List.length (filter (fun m => (workload m <? 10)%nat) loads).
Proof.
  intros R loads available n.
  assert (Havail : forall m, In m available <-> In m loads /\ (workload m < 10)%nat).
  { intros m. unfold available. rewrite filter_In, Nat.ltb_lt.
    split; intros [Hin Hlt]; split; auto.
    - eapply Permutation_in; [apply sortByWorkload_perm | exact Hin].
    - eapply Permutation_in; [apply Permutation_sym, sortByWorkload_perm | exact Hin]. }
  assert (Hn : n = List.length (filter (fun m => (workload m <? 10)%nat) loads)).
  { unfold n, available. apply Permutation_length, filter_perm, sortByWorkload_perm. }
  assert (Htail :
    (forall m, In m available <-> In m loads /\ (workload m < 10)%nat) /\
    n = List.length (filter (fun m => (workload m <? 10)%nat) loads)).
  { split; [exact Havail | exact Hn]. }
  unfold findBestModerator, tryCatch.
  erewrite bind_ok by (apply prisma_user_findMany_moderators, R).
  set (w1 := set_trace w (trace w ++ [UserFindMany [UserRole.MODERATOR]])).
  assert (R1 : reliable w1) by (intros h c; apply R).
  destruct (activeModerators w) as [| u mods] eqn:Hmods.
  - (* no active moderator *)
    cbn [List.length Nat.eqb]. unfold ret.
    exists None, w1. split; [reflexivity |].
    split; [reflexivity |]. split; [congruence |]. split; [congruence |].
    split; [congruence | exact Htail].
  - cbn [List.length Nat.eqb].
    destruct (mapM_workloads (u :: mods) R1) as (w2 & E & Ff & Fr & Fc).
    erewrite bind_ok by exact E.
    assert (Hloads : map (fun u0 => {| moderatorId := User.id u0;
                                       workload := openReports w1 (User.id u0) |})
                         (u :: mods) = loads).
    { unfold loads, workloadsOf. rewrite Hmods. reflexivity. }
    rewrite Hloads.
    assert (Hne : loads <> []).
    { unfold loads, workloadsOf. rewrite Hmods. discriminate. }
    destruct (sortByWorkload_head Hne) as (m0 & rest & Es & Hleast).
    destruct (Priority.eqb priority Priority.HIGH) eqn:Hp.
    + (* HIGH *)
      apply Priority_eqb_eq in Hp.
      rewrite Es. erewrite bind_ok by apply moderatorIdAt_head. unfold ret.
      exists (Some (moderatorId m0)), w2. split; [reflexivity |].
      split; [discriminate |]. split; [eauto |]. split; [congruence |].
      split; [congruence | exact Htail].
    + assert (Hp' : priority <> Priority.HIGH).
      { intros ->. discriminate. }
      fold available. fold n.
      destruct (0 <? n)%nat eqn:Hpos.
      * (* a draw among the available moderators *)
        apply Nat.ltb_lt in Hpos.
        erewrite bind_ok by reflexivity.
        assert (Hdraw : hd 0%Q (random w2) = nextRandom w).
        { rewrite Fr. unfold nextRandom. simpl. destruct (random w); reflexivity. }
        rewrite Hdraw.
        set (w3 := set_random w2 (tl (random w2))).
        assert (Hw3 : random w3 = tl (random w))
          by (unfold w3; simpl; now rewrite Fr).
        assert (Hnil : available <> []).
        { intros Hnil. unfold n in Hpos. rewrite Hnil in Hpos. inversion Hpos. }
        destruct (moderatorIdAt available (randomIndexOf (nextRandom w) n) w3)
          as [[id | e] w4] eqn:Em;
          destruct (moderatorIdAt_run _ _ _ Em) as [-> Hm].
        -- erewrite bind_ok by exact Em. unfold ret.
           eexists. eexists. split; [reflexivity |].
           split; [discriminate |]. split; [congruence |].
           split; [| split; [intros _ _ C; contradiction | exact Htail]].
           intros _ _ _. split; [exact Hw3 |].
           intros m Hi Hnth. specialize (Hm m Hi Hnth). congruence.
        -- erewrite bind_throw by exact Em. unfold ret.
           eexists. eexists. split; [reflexivity |].
           split; [discriminate |]. split; [congruence |].
           split; [| split; [intros _ _ C; contradiction | exact Htail]].
           intros _ _ _. split; [exact Hw3 |].
           intros m Hi Hnth. specialize (Hm m Hi Hnth). discriminate.
      * (* nobody below ten reports *)
        apply Nat.ltb_ge in Hpos.
        assert (Hnil : available = []).
        { unfold n in Hpos. destruct available; simpl in *; [reflexivity | lia]. }
        rewrite Es. erewrite bind_ok by apply moderatorIdAt_head. unfold ret.
        exists (Some (moderatorId m0)), w2. split; [reflexivity |].
        split; [discriminate |]. split; [congruence |]. split; [congruence |].
        split; [eauto | exact Htail].
Qed.




(* ================================================================== *)
(** ** Report triage *)

(** *** Handlers that return only when every call was accepted *)

Lemma accepted_app oracle h cs1 cs2 :
  accepted oracle h cs1 -> accepted oracle (h ++ cs1) cs2 ->
  accepted oracle h (cs1 ++ cs2).
Proof.
  revert h. induction cs1 as [| c cs1 IH]; intros h A1 A2; simpl in *.
  - now rewrite app_nil_r in A2.
  - destruct A1 as [Hc A1]. split; [exact Hc |].
    apply IH; [exact A1 |]. now rewrite <- app_assoc.
Qed.

Lemma honest_silent {A} (m : M A) :
  preserves fails m -> preserves trace m -> honest m.
Proof.
  intros Pf Pt w a w' E. split; [eapply Pf; eauto |].
  exists []. rewrite app_nil_r. split; [eapply Pt; eauto | exact I].
Qed.

Lemma honest_ret {A} (a : A) : honest (ret a).
Proof. apply honest_silent; apply preserves_ret. Qed.

Lemma honest_gets {A} (g : World -> A) : honest (gets g).
Proof. apply honest_silent; apply preserves_gets. Qed.

Lemma honest_throw {A} e : honest (@throw A e).
Proof. intros w a w' E. discriminate E. Qed.

Lemma honest_Math_random : honest Math_random.
Proof.
  apply honest_silent; apply preserves_Math_random; intros; reflexivity.
Qed.

Lemma honest_call c : honest (call c).
Proof.
  intros w a w' E. unfold call in E.
  destruct (fails w (trace w) c) eqn:F; inversion E; subst. simpl.
  split; [reflexivity |]. exists [c]. simpl. auto.
Qed.

Lemma honest_bind {A B} (m : M A) (k : A -> M B) :
  honest m -> (forall a, honest (k a)) -> honest (bind m k).
Proof.
  intros Hm Hk w b w' E. unfold bind in E.
  destruct (m w) as [[a | e] w1] eqn:Em; [| discriminate].
  destruct (Hm _ _ _ Em) as (F1 & cs1 & T1 & A1).
  destruct (Hk a _ _ _ E) as (F2 & cs2 & T2 & A2).
  split; [congruence |].
  exists (cs1 ++ cs2)%list. split.
  - rewrite T2, T1. now rewrite app_assoc.
  - apply accepted_app; [exact A1 |]. rewrite <- T1, <- F1. exact A2.
Qed.

Lemma honest_mapM {A B} (g : A -> M B) (xs : list A) :
  (forall x, honest (g x)) -> honest (mapM g xs).
Proof.
  intros Hg. induction xs as [| x rest IH]; simpl.
  - apply honest_ret.
  - apply honest_bind; auto. intros y.
    apply honest_bind; auto. intros ys. apply honest_ret.
Qed.

Ltac honest_step :=
  lazymatch goal with
  | |- honest (bind _ _) => apply honest_bind; [| intro]
  | |- honest (mapM _ _) => apply honest_mapM; intro
  | |- honest (ret _) => apply honest_ret
  | |- honest (throw _) => apply honest_throw
  | |- honest (gets _) => apply honest_gets
  | |- honest (call _) => apply honest_call
  | |- honest Math_random => apply honest_Math_random
  | |- honest (match ?x with _ => _ end) => destruct x
  end.

Lemma findBestModerator_total department priority :
  total (findBestModerator department priority).
Proof.
  intros w. unfold findBestModerator, tryCatch.
  match goal with |- context [let (_, _) := ?body w in _] =>
    destruct (body w) as [[a | e] w1] end; eexists; eexists; reflexivity.
Qed.

(** A moderator is returned only when each lookup and count was accepted. *)
Lemma findBestModerator_some department priority w m w' :
  findBestModerator department priority w = (Ok (Some m), w') ->
  fails w' = fails w /\
  exists calls, trace w' = (trace w ++ calls)%list /\
                accepted (fails w) (trace w) calls.
Proof.
  intros E. unfold findBestModerator, tryCatch in E.
  match type of E with (let (_, _) := ?body w in _) = _ =>
    assert (H : honest body);
    [| destruct (body w) as [[a1 | e] w1] eqn:Eb] end.
  - unfold prisma_user_findMany, prisma_corruptionReport_count, moderatorIdAt.
    repeat honest_step.
  - inversion E; subst. eapply H; eauto.
  - discriminate E.
Qed.

(** *** The scoring blocks *)

Ltac case_if :=
  match goal with |- context [if ?b then _ else _] => destruct b end.

Lemma triageKeywords_high content st k :
  In k highPriorityKeywords -> includes content k = true ->
  fst (triageKeywords content st) = Priority.HIGH.
Proof.
  intros Hin Hinc. unfold triageKeywords. destruct st as [p r].
  assert (Hm : In k (filter (fun keyword => includes content keyword)
                            highPriorityKeywords))
    by (apply filter_In; auto).
  destruct (filter (fun keyword => includes content keyword) highPriorityKeywords)
    as [| k0 ks]; [contradiction |].
  cbn [List.length Nat.ltb Nat.leb]. cbn [Priority.eqb Priority.rank Nat.eqb negb].
  rewrite andb_false_r. reflexivity.
Qed.

Lemma triageKeywords_not_low content st :
  fst st <> Priority.LOW -> fst (triageKeywords content st) <> Priority.LOW.
Proof.
  unfold triageKeywords. destruct st as [p r]. simpl fst. intros Hp.
  repeat case_if; simpl; congruence.
Qed.

Lemma triageDepartment_not_low report st :
  fst st <> Priority.LOW -> fst (triageDepartment report st) <> Priority.LOW.
Proof.
  unfold triageDepartment. destruct st as [p r]. simpl fst. intros Hp.
  case_if; [| exact Hp]. destruct p; simpl; congruence.
Qed.

Lemma triageEvidence_not_low n st :
  fst st <> Priority.LOW -> fst (triageEvidence n st) <> Priority.LOW.
Proof.
  unfold triageEvidence. destruct st as [p r]. simpl fst. intros Hp.
  case_if; [| exact Hp]. destruct p; simpl; congruence.
Qed.

Lemma triageRecency_not_low report t content st :
  fst st <> Priority.LOW -> fst (triageRecency report t content st) <> Priority.LOW.
Proof.
  unfold triageRecency. destruct st as [p r]. simpl fst. intros Hp.
  case_if; [| exact Hp]. destruct p; simpl; congruence.
Qed.

Lemma triageDepartment_keeps_high report st :
  fst st = Priority.HIGH -> fst (triageDepartment report st) = Priority.HIGH.
Proof.
  unfold triageDepartment. destruct st as [p r]. simpl fst. intros ->.
  case_if; reflexivity.
Qed.

Lemma triageEvidence_keeps_high n st :
  fst st = Priority.HIGH -> fst (triageEvidence n st) = Priority.HIGH.
Proof.
  unfold triageEvidence. destruct st as [p r]. simpl fst. intros ->.
  case_if; reflexivity.
Qed.

Lemma triageRecency_keeps_high report t content st :
  fst st = Priority.HIGH -> fst (triageRecency report t content st) = Priority.HIGH.
Proof.
  unfold triageRecency. destruct st as [p r]. simpl fst. intros ->.
  case_if; reflexivity.
Qed.

Lemma triagePriority_not_low report n t : triagePriority report n t <> Priority.LOW.
Proof.
  unfold triagePriority.
  apply triageRecency_not_low, triageEvidence_not_low, triageDepartment_not_low,
        triageKeywords_not_low.
  simpl. discriminate.
Qed.

Lemma triagePriority_keyword report n t k :
  In k highPriorityKeywords -> includes (contentOf report) k = true ->
  triagePriority report n t = Priority.HIGH.
Proof.
  intros Hin Hinc. unfold triagePriority.
  apply triageRecency_keeps_high, triageEvidence_keeps_high,
        triageDepartment_keeps_high.
  eapply triageKeywords_high; eauto.
Qed.

(** *** The run of [performAutoTriage] *)

Lemma prisma_mediaAsset_count_ok reportId w :
  fails w (trace w) (MediaAssetCount reportId) = None ->
  prisma_mediaAsset_count reportId w =
    (Ok (evidenceCountOf w reportId),
     set_trace w (trace w ++ [MediaAssetCount reportId])).
Proof.
  intros F. unfold prisma_mediaAsset_count.
  erewrite bind_ok by (apply call_ok, F). reflexivity.
Qed.

Lemma prisma_mediaAsset_count_rejected reportId w message :
  fails w (trace w) (MediaAssetCount reportId) = Some message ->
  prisma_mediaAsset_count reportId w =
    (Throw message, set_trace w (trace w ++ [MediaAssetCount reportId])).
Proof.
  intros F. unfold prisma_mediaAsset_count.
  erewrite bind_throw by (apply call_fails, F). reflexivity.
Qed.

(** The triage of a report rejects exactly when the evidence count does;
    otherwise it returns the priority of the blocks, the matching status and
    the assignee [findBestModerator] gives for that priority. *)
Lemma performAutoTriage_run report w :
  let w1 := set_trace w (trace w ++ [MediaAssetCount (Report.id report)]) in
  let priority :=
    triagePriority report (evidenceCountOf w (Report.id report)) (now w) in
  match fails w (trace w) (MediaAssetCount (Report.id report)) with
  | Some message => performAutoTriage report w = (Throw message, w1)
  | None =>
      exists assigned reasoning w',
        findBestModerator (Report.department report) priority w1
          = (Ok assigned, w') /\
        performAutoTriage report w =
          (Ok {| t_status := if Priority.eqb priority Priority.HIGH
                             then ReportStatus.INVESTIGATING
                             else ReportStatus.UNDER_REVIEW;
                 t_assignedTo := assigned;
                 t_priority := priority;
                 t_reasoning := reasoning |}, w')
  end.
Proof.
  intros w1 priority.
  destruct (fails w (trace w) (MediaAssetCount (Report.id report)))
    as [message |] eqn:F.
  - unfold performAutoTriage.
    erewrite bind_throw by (apply prisma_mediaAsset_count_rejected, F).
    reflexivity.
  - unfold performAutoTriage.
    erewrite bind_ok by (apply prisma_mediaAsset_count_ok, F).
    erewrite bind_ok by reflexivity. fold w1.
    change (now w1) with (now w).
    unfold priority, triagePriority.
    destruct (triageRecency report (now w) (contentOf report) _) as [p r] eqn:Est.
    cbn [fst].
    destruct (findBestModerator_total (Report.department report) p w1)
      as (assigned & w' & Ef).
    erewrite bind_ok by exact Ef.
    exists assigned. destruct (Priority.eqb p Priority.HIGH); unfold ret;
      eexists; exists w'; (split; [exact Ef | reflexivity]).
Qed.

Lemma Priority_le_HIGH p : Priority.le p Priority.HIGH.
Proof. destruct p; unfold Priority.le; simpl; lia. Qed.

(** C4. Triage is monotonic in high-priority keyword matches: when the text
    of a report is changed so that it contains one of the high-priority
    keywords, department, evidence and creation time staying as they are,
    the triage of the changed report returns whenever that of the original
    does, with a priority (HIGH) at least the original one. *)
Theorem performAutoTriage_keyword_monotone
    (report extended : Report.t) (w : World) (k : string)
    (res : TriageResult) (w1 : World) :
  Report.id extended = Report.id report ->
  Report.department extended = Report.department report ->
  Report.createdAt extended = Report.createdAt report ->
  In k highPriorityKeywords ->
  includes (contentOf extended) k = true ->
  performAutoTriage report w = (Ok res, w1) ->
  exists res' w1',
    performAutoTriage extended w = (Ok res', w1') /\
    Priority.le (t_priority res) (t_priority res').
Proof.
  intros Hid _ _ Hin Hinc Hrun.
  pose proof (performAutoTriage_run report w) as Ho.
  pose proof (performAutoTriage_run extended w) as He.
  cbv zeta in Ho, He. rewrite Hid in He.
  destruct (fails w (trace w) (MediaAssetCount (Report.id report))) as [message |].
  - rewrite Ho in Hrun. discriminate Hrun.
  - destruct He as (assigned & reasoning & w1' & _ & He).
    eexists. exists w1'. split; [exact He |].
    cbn [t_priority].
    erewrite triagePriority_keyword by eassumption.
    apply Priority_le_HIGH.
Qed.

Lemma performAutoTriage_keyword_monotone_witness :
  exists res res' w1 w1',
    performAutoTriage parkingReport (triageWorld [] never) = (Ok res, w1) /\
    performAutoTriage urgentParkingReport (triageWorld [] never) = (Ok res', w1') /\
    t_priority res = Priority.MEDIUM /\ t_priority res' = Priority.HIGH /\
    Priority.le (t_priority res) (t_priority res').
Proof.
  pose (run := performAutoTriage parkingReport (triageWorld [] never)).
  pose (res := match fst run with
               | Ok res => res
               | Throw _ => {| t_status := ReportStatus.SUBMITTED;
                               t_assignedTo := None;
                               t_priority := Priority.LOW; t_reasoning := [] |}
               end).
  destruct (@performAutoTriage_keyword_monotone parkingReport urgentParkingReport
              (triageWorld [] never) "urgent" res (snd run))
    as (res' & w1' & E' & Hle).
  - reflexivity.
  - reflexivity.
  - reflexivity.
  - simpl. auto 10.
  - reflexivity.
  - vm_compute. reflexivity.
  - exists res, res', (snd run), w1'.
    split; [vm_compute; reflexivity |]. split; [exact E' |].
    split; [reflexivity |]. split; [| exact Hle].
    assert (F : fst (performAutoTriage urgentParkingReport (triageWorld [] never))
                = Ok res') by (rewrite E'; reflexivity).
    vm_compute in F. inversion F. reflexivity.
Defined.

Lemma findBestModerator_high_no_draw department :
  preserves random (findBestModerator department Priority.HIGH).
Proof.
  unfold findBestModerator, prisma_user_findMany, prisma_corruptionReport_count,
         moderatorIdAt.
  cbn [Priority.eqb Priority.rank Nat.eqb]. frame.
Qed.

(** C9. The priority of a triage is MEDIUM or HIGH, never LOW: the blocks
    that test for LOW (department, evidence) are reached with MEDIUM or HIGH
    only, so their escalation from LOW never runs; the status is
    INVESTIGATING for HIGH and UNDER_REVIEW otherwise; a HIGH triage takes
    no random draw, and a MEDIUM one takes the draw whenever a moderator
    with fewer than ten open reports exists and the database answers. *)
Theorem performAutoTriage_never_low (report : Report.t) (w : World) :
  let s1 := triageKeywords (contentOf report) (Priority.MEDIUM, []) in
  let s2 := triageDepartment report s1 in
  fst s1 <> Priority.LOW /\
  fst s2 <> Priority.LOW /\
  (forall n, fst (triageEvidence n s2) = fst s2) /\
  (fails w (trace w) (MediaAssetCount (Report.id report)) = None ->
     exists res w', performAutoTriage report w = (Ok res, w')) /\
  (forall res w',
     performAutoTriage report w = (Ok res, w') ->
     (t_priority res = Priority.MEDIUM \/ t_priority res = Priority.HIGH) /\
     (t_status res = ReportStatus.UNDER_REVIEW \/
      t_status res = ReportStatus.INVESTIGATING) /\
     (t_priority res = Priority.HIGH <-> t_status res = ReportStatus.INVESTIGATING) /\
     (t_priority res = Priority.HIGH -> random w' = random w) /\
     (t_priority res <> Priority.HIGH ->
      reliable w -> (0 <= nextRandom w)%Q -> (nextRandom w < 1)%Q ->
      filter (fun m => (workload m <? 10)%nat) (sortByWorkload (workloadsOf w)) <> [] ->
      random w' = tl (random w))).
Proof.
  intros s1 s2.
  assert (H1 : fst s1 <> Priority.LOW).
  { apply triageKeywords_not_low. simpl. discriminate. }
  assert (H2 : fst s2 <> Priority.LOW) by (apply triageDepartment_not_low, H1).
  split; [exact H1 |]. split; [exact H2 |]. split.
  { intros n. unfold triageEvidence. destruct s2 as [p r]. simpl in *.
    destruct (0 <? n)%nat; [| reflexivity]. destruct p; simpl; congruence. }
  pose proof (performAutoTriage_run report w) as Hrun. cbv zeta in Hrun.
  split.
  { intros F. rewrite F in Hrun.
    destruct Hrun as (assigned & reasoning & w' & _ & E). eauto. }
  intros res w' E.
  destruct (fails w (trace w) (MediaAssetCount (Report.id report))) as [message |] eqn:F.
  { rewrite Hrun in E. discriminate E. }
  destruct Hrun as (assigned & reasoning & w'' & Ef & E').
  rewrite E' in E. inversion E; subst res w''. clear E. cbn [t_priority t_status].
  set (p := triagePriority report (evidenceCountOf w (Report.id report)) (now w)) in *.
  pose proof (triagePriority_not_low report
                (evidenceCountOf w (Report.id report)) (now w)) as Hp.
  fold p in Hp.
  split; [destruct p; auto; congruence |].
  split; [destruct p; simpl; auto |].
  split; [destruct p; simpl; split; congruence |].
  split.
  - intros Hhigh. rewrite Hhigh in Ef.
    apply (findBestModerator_high_no_draw _ _ Ef).
  - intros Hnot R Hr0 Hr1 Havail.
    set (w1 := set_trace w (trace w ++ [MediaAssetCount (Report.id report)])) in *.
    assert (R1 : reliable w1) by (intros h c; apply R).
    destruct (findBestModerator_run (Report.department report) p R1)
      as (r & w2 & E2 & _ & _ & Hdraw & _).
    rewrite E2 in Ef. inversion Ef; subst r w2.
    destruct Hdraw as (Hrand & _); auto.
    intros Hnone. apply Havail.
    change (workloadsOf w1) with (workloadsOf w) in *.
    unfold workloadsOf. change (activeModerators w) with (activeModerators w1).
    rewrite Hnone. reflexivity.
Qed.

(** The triage of the bribe report of the scenario. *)
Example performAutoTriage_scenario :
  fst (performAutoTriage bribeReport (triageWorld [] never))
  = Ok {| t_status := ReportStatus.INVESTIGATING;
          t_assignedTo := Some "m2";
          t_priority := Priority.HIGH;
          t_reasoning :=
            [ "High priority keywords detected: bribe, senior official, ongoing";
              "High-impact department: Police";
              "1 evidence file(s) attached";
              "Recent report mentioning ongoing corruption";
              "Assigned to moderator based on expertise and workload";
              "High priority - moved directly to investigation" ] |}.
Proof. vm_compute. reflexivity. Qed.

(** *** Failures around the moderators *)

Lemma findBestModerator_frame department priority :
  preserves corruptionReports (findBestModerator department priority) /\
  preserves fails (findBestModerator department priority).
Proof.
  split; unfold findBestModerator, prisma_user_findMany,
           prisma_corruptionReport_count, moderatorIdAt; frame.
Qed.

Lemma notifyModerators_total report triageResult :
  total (notifyModerators report triageResult).
Proof.
  intros w. unfold notifyModerators, tryCatch.
  match goal with |- context [let (_, _) := ?body w in _] =>
    destruct (body w) as [[[] | e] w1] end; eexists; eexists; reflexivity.
Qed.

Lemma notifyModerators_frame report triageResult :
  preserves corruptionReports (notifyModerators report triageResult).
Proof.
  unfold notifyModerators, prisma_user_findMany, notificationQueue_add. frame.
Qed.

Lemma find_some_id id (rows : list Report.t) r :
  find (fun x => String.eqb (Report.id x) id) rows = Some r -> Report.id r = id.
Proof.
  intros H. apply find_some in H. destruct H as [_ H].
  now apply String.eqb_eq in H.
Qed.

(** An update of a report that exists, when the call is not rejected. *)
Lemma prisma_corruptionReport_update_ok id st assignee t w r0 :
  fails w (trace w) (ReportUpdate id st assignee) = None ->
  reportOf w id = Some r0 ->
  exists w' r1,
    prisma_corruptionReport_update id st assignee t w = (Ok tt, w') /\
    reportOf w' id = Some r1 /\
    Report.status r1 = st /\
    Report.assignedTo r1 = match assignee with
                           | Some a => Some a
                           | None => Report.assignedTo r0
                           end.
Proof.
  intros F Hr. unfold reportOf in Hr.
  unfold prisma_corruptionReport_update.
  erewrite bind_ok by (apply call_ok, F).
  erewrite bind_ok by reflexivity. cbn [corruptionReports set_trace].
  rewrite (find_existsb _ _ Hr).
  eexists. eexists. split; [reflexivity |].
  unfold reportOf. cbn [corruptionReports set_corruptionReports set_trace].
  erewrite (find_map_update (fun r => String.eqb (Report.id r) id)
              (fun r => {| Report.id := Report.id r;
                           Report.title := Report.title r;
                           Report.description := Report.description r;
                           Report.department := Report.department r;
                           Report.status := st;
                           Report.assignedTo :=
                             match assignee with
                             | Some a => Some a
                             | None => Report.assignedTo r
                             end;
                           Report.createdAt := Report.createdAt r;
                           Report.updatedAt := t |})); eauto.
  repeat split.
Qed.

(** C10. Failures around the moderators do not fail the triage job:
    [findBestModerator] never rejects and returns a moderator only when each
    of its calls was accepted (any rejected call gives undefined);
    [notifyModerators] never rejects; and the triage job of an existing
    report completes and leaves the report with the status of the result
    (and the assignee of the result, if any) as soon as the report lookup,
    the evidence count and the report update are accepted, whatever happens
    to the moderator lookups, the workload counts and the enqueues. *)
Theorem moderator_failures_do_not_fail_triage :
  (forall department priority, total (findBestModerator department priority)) /\
  (forall department priority w m w',
     findBestModerator department priority w = (Ok (Some m), w') ->
     exists calls, trace w' = (trace w ++ calls)%list /\
                   accepted (fails w) (trace w) calls) /\
  (forall report triageResult, total (notifyModerators report triageResult)) /\
  (forall (job : Job.t ReportTriageJobData.t) (w : World) (report0 : Report.t),
     let id := ReportTriageJobData.reportId (Job.data job) in
     reportOf w id = Some report0 ->
     (forall h, fails w h (ReportFindUnique id) = None) ->
     (forall h, fails w h (MediaAssetCount id) = None) ->
     (forall h st a, fails w h (ReportUpdate id st a) = None) ->
     exists res w' report1,
       processReportTriage job w = (Ok res, w') /\
       reportOf w' id = Some report1 /\
       Report.status report1 = t_status res /\
       Report.assignedTo report1 = match t_assignedTo res with
                                   | Some a => Some a
                                   | None => Report.assignedTo report0
                                   end).
Proof.
  split; [exact findBestModerator_total |].
  split; [intros d p w m w' E; apply (findBestModerator_some _ _ _ E) |].
  split; [exact notifyModerators_total |].
  intros job w report0 id Hrep Hfind Hcount Hupd.
  unfold processReportTriage, tryCatch. fold id.
  (* the lookup *)
  set (w1 := set_trace w (trace w ++ [ReportFindUnique id])).
  assert (E1 : prisma_corruptionReport_findUnique id w = (Ok (Some report0), w1)).
  { unfold prisma_corruptionReport_findUnique.
    erewrite bind_ok by (apply call_ok, Hfind). unfold gets.
    cbn [corruptionReports set_trace]. unfold reportOf in Hrep. now rewrite Hrep. }
  erewrite bind_ok by exact E1. cbv beta iota.
  (* the triage *)
  assert (Hid : Report.id report0 = id) by (eapply find_some_id; exact Hrep).
  pose proof (performAutoTriage_run report0 w1) as Hrun. cbv zeta in Hrun.
  rewrite Hid in Hrun.
  change (fails w1) with (fails w) in Hrun. rewrite Hcount in Hrun.
  destruct Hrun as (assigned & reasoning & w2 & Ef & Et).
  erewrite bind_ok by exact Et.
  destruct (findBestModerator_frame (Report.department report0)
              (triagePriority report0 (evidenceCountOf w1 id) (now w1)))
    as [Fc Ff].
  pose proof (Fc _ _ _ Ef) as Hc. pose proof (Ff _ _ _ Ef) as Hf.
  cbn [corruptionReports fails set_trace] in Hc, Hf.
  (* the update *)
  erewrite bind_ok by reflexivity.
  match goal with |- context [prisma_corruptionReport_update id ?st ?a ?t] =>
    destruct (@prisma_corruptionReport_update_ok id st a t w2 report0)
      as (w3 & report1 & Eu & Hr1 & Hst & Has) end.
  { rewrite Hf. apply Hupd. }
  { unfold reportOf. rewrite Hc. exact Hrep. }
  erewrite bind_ok by exact Eu.
  (* the notifications *)
  match goal with |- context [bind ?notify _ w3] =>
    assert (En : exists w4, notify w3 = (Ok tt, w4) /\
                            corruptionReports w4 = corruptionReports w3) end.
  { destruct (Priority.eqb _ Priority.HIGH).
    - match goal with |- context [notifyModerators ?r ?t] =>
        destruct (notifyModerators_total r t w3) as ([] & w4 & E4);
        exists w4; split; [exact E4 |];
        apply (notifyModerators_frame _ _ _ E4) end.
    - exists w3. split; reflexivity. }
  destruct En as (w4 & E4 & Hc4).
  erewrite bind_ok by exact E4. unfold ret.
  eexists. exists w4, report1. split; [reflexivity |].
  split; [unfold reportOf; rewrite Hc4; exact Hr1 |].
  split; [exact Hst | exact Has].
Qed.

(** With every moderator lookup, workload count and enqueue rejected, the
    triage of the bribe report still completes: the report is moved to
    INVESTIGATING, nobody is assigned and nothing is queued. *)
Example processReportTriage_during_outage :
  let '(r, w') := processReportTriage (triageJob "r1" "Police")
                    (triageWorld [] moderatorOutage) in
  isOk r = true /\
  option_map Report.status (reportOf w' "r1") = Some ReportStatus.INVESTIGATING /\
  option_map Report.assignedTo (reportOf w' "r1") = Some None /\
  Queue.waiting (notificationQueue w') = [].
Proof. vm_compute. repeat split. Qed.
